(** * tk_tooltip: the ToolTip controller of [main.py]

    A shallow embedding of the [ToolTip] class: the option dictionary, the
    show/hide scheduling handlers and the placement function [coords],
    together with the part of the Tk toolkit they act on (timers created by
    [after], popup windows created by [Toplevel]). *)

From Stdlib Require Import ZArith QArith String Ascii List Lia Lqa.
From stdpp Require Import base gmap strings list fin_maps pretty.

Local Open Scope string_scope.
Local Open Scope Z_scope.

(** ** Python values and exceptions *)

(** The exceptions the modelled code can end in. *)
Inductive exn : Type :=
| TypeError (msg : string)
| KeyError (key : string)
| AttributeError (msg : string).

(** The values stored in the option dictionary.  [PObj o truth] stands for
    any other object (a [StringVar], a font tuple, a list, a float),
    identified by a number and carrying the truth value Python gives it
    (false for an empty tuple or list and for [0.0]); such an object is
    equal to no string. *)
Inductive pyval : Type :=
| PNone
| PBool (b : bool)
| PInt (z : Z)
| PStr (s : string)
| PObj (o : nat) (truth : bool)
| PExc (e : exn).

(** Truth value of [v] in an [if v:] test. *)
Definition truthy (v : pyval) : bool :=
  match v with
  | PNone => false
  | PBool b => b
  | PInt z => negb (Z.eqb z 0)
  | PStr s => negb (String.eqb s EmptyString)
  | PObj _ truth => truth
  | PExc _ => true
  end.

(** [v == 'disabled'] *)
Definition eq_disabled (v : pyval) : bool :=
  match v with
  | PStr s => String.eqb s "disabled"
  | _ => false
  end.

(** [raise v]: only exception instances can be raised; anything else makes
    the [raise] statement itself fail with a [TypeError]. *)
Definition py_raise (v : pyval) : exn :=
  match v with
  | PExc e => e
  | _ => TypeError "exceptions must derive from BaseException"
  end.

(** ['KeyError: Unknown option: "%s"' % key] *)
Definition dquote : string := String (ascii_of_nat 34) EmptyString.

Definition unknown_option_message (key : string) : string :=
  String.append "KeyError: Unknown option: "
    (String.append dquote (String.append key dquote)).

(** ** A state and exception monad *)

Inductive res (A : Type) : Type :=
| Ret (a : A)
| Raise (e : exn).
Arguments Ret {A} a.
Arguments Raise {A} e.

Definition M (S A : Type) : Type := S -> S * res A.

Definition ret {S A} (a : A) : M S A := fun s => (s, Ret a).
Definition raise {S A} (e : exn) : M S A := fun s => (s, Raise e).
Definition bind {S A B} (m : M S A) (k : A -> M S B) : M S B :=
  fun s => match m s with
           | (s', Ret a) => k a s'
           | (s', Raise e) => (s', Raise e)
           end.
Definition gets {S A} (f : S -> A) : M S A := fun s => (s, Ret (f s)).
Definition modify {S} (f : S -> S) : M S unit := fun s => (f s, Ret tt).

Notation "'do' x <- m ; k" := (bind m (fun x => k))
  (at level 10, x name, m at level 100, k at level 200,
   format "'[v' 'do'  x  <-  m ; '/' k ']'").
Notation "m >> k" := (bind m (fun _ => k))
  (at level 120, right associativity,
   format "'[v' m  >> '/' k ']'").

(** ** The ToolTip object *)

Record ToolTip : Type := mkToolTip {
  _opts : gmap string pyval;
  _tipwindow : option nat;
  _id : option nat;
  _id4 : option string;
  _follow_mouse : Z
}.

(** The part of Tk the controller acts on.  A popup is a [Toplevel]; a
    timer is an entry of [timers], keyed by the number [n] of its name
    ["after#n"] and holding the delay it was scheduled with. *)
Record Toplevel : Type := mkToplevel {
  withdrawn : bool;
  overrideredirect : bool;
  help_style : bool;
  label : option (gmap string pyval);
  position : option (Z * Z)
}.

Record Tk : Type := mkTk {
  windows : gmap nat Toplevel;
  next_window : nat;
  timers : gmap nat pyval;
  next_timer : nat
}.

(** What the toolkit answers to the geometry queries of one callback:
    [winfo_reqwidth], [winfo_reqheight], [winfo_screenwidth],
    [winfo_screenheight], [winfo_pointerx], [winfo_pointery] of the popup,
    [winfo_rooty] and [winfo_height] of the master, and
    [tk windowingsystem]. *)
Record geometry : Type := mkGeometry {
  winfo_reqwidth : Z;
  winfo_reqheight : Z;
  winfo_screenwidth : Z;
  winfo_screenheight : Z;
  winfo_pointerx : Z;
  winfo_pointery : Z;
  winfo_rooty : Z;
  winfo_height : Z;
  windowingsystem : string
}.

Record world : Type := mkWorld {
  self : ToolTip;
  tk : Tk
}.

(** *** Field updates *)

Definition set_opts (o : gmap string pyval) (t : ToolTip) : ToolTip :=
  mkToolTip o (_tipwindow t) (_id t) (_id4 t) (_follow_mouse t).
Definition set_tipwindow (tw : option nat) (t : ToolTip) : ToolTip :=
  mkToolTip (_opts t) tw (_id t) (_id4 t) (_follow_mouse t).
Definition set_id (i : option nat) (t : ToolTip) : ToolTip :=
  mkToolTip (_opts t) (_tipwindow t) i (_id4 t) (_follow_mouse t).

Definition on_self (f : ToolTip -> ToolTip) (w : world) : world :=
  mkWorld (f (self w)) (tk w).
Definition on_tk (f : Tk -> Tk) (w : world) : world :=
  mkWorld (self w) (f (tk w)).

Definition set_windows (ws : gmap nat Toplevel) (k : Tk) : Tk :=
  mkTk ws (next_window k) (timers k) (next_timer k).
Definition set_timers (ts : gmap nat pyval) (k : Tk) : Tk :=
  mkTk (windows k) (next_window k) ts (next_timer k).

(** Runs a method that only touches the object inside the whole world. *)
Definition lift {A} (m : M ToolTip A) : M world A :=
  fun w => let (t, r) := m (self w) in (mkWorld t (tk w), r).

(** *** Toolkit calls *)

(** [master.after(ms, callback)]: a new timer, whose name is returned. *)
Definition after (ms : pyval) : M world nat :=
  fun w =>
    let k := tk w in
    let n := next_timer k in
    (mkWorld (self w)
       (mkTk (windows k) (next_window k) (<[n := ms]> (timers k)) (S n)),
     Ret n).

(** [master.after_cancel(id)] *)
Definition after_cancel (id : nat) : M world unit :=
  modify (on_tk (fun k => set_timers (delete id (timers k)) k)).

(** [tk.Toplevel(master)]: a new window, mapped and decorated. *)
Definition new_Toplevel : M world nat :=
  fun w =>
    let k := tk w in
    let n := next_window k in
    (mkWorld (self w)
       (mkTk (<[n := mkToplevel false false false None None]> (windows k))
             (S n) (timers k) (next_timer k)),
     Ret n).

Definition alter_window (f : Toplevel -> Toplevel) (tw : nat) : M world unit :=
  modify (on_tk (fun k => set_windows (alter f tw (windows k)) k)).

Definition withdraw : nat -> M world unit :=
  alter_window (fun t =>
    mkToplevel true (overrideredirect t) (help_style t) (label t) (position t)).
Definition deiconify : nat -> M world unit :=
  alter_window (fun t =>
    mkToplevel false (overrideredirect t) (help_style t) (label t) (position t)).
Definition wm_overrideredirect : nat -> M world unit :=
  alter_window (fun t =>
    mkToplevel (withdrawn t) true (help_style t) (label t) (position t)).
Definition MacWindowStyle : nat -> M world unit :=
  alter_window (fun t =>
    mkToplevel (withdrawn t) (overrideredirect t) true (label t) (position t)).
Definition pack_Label (o : gmap string pyval) : nat -> M world unit :=
  alter_window (fun t =>
    mkToplevel (withdrawn t) (overrideredirect t) (help_style t) (Some o)
               (position t)).
Definition wm_geometry (p : Z * Z) : nat -> M world unit :=
  alter_window (fun t =>
    mkToplevel (withdrawn t) (overrideredirect t) (help_style t) (label t)
               (Some p)).
Definition destroy (tw : nat) : M world unit :=
  modify (on_tk (fun k => set_windows (delete tw (windows k)) k)).

(** ** The methods of [ToolTip] *)

(** [self._opts[key]] *)
Definition opt (key : string) : M ToolTip pyval :=
  fun t => match _opts t !! key with
           | Some v => (t, Ret v)
           | None => (t, Raise (KeyError key))
           end.

(** [key in d] *)
Definition has_key (d : gmap string pyval) (key : string) : bool :=
  match d !! key with
  | Some _ => true
  | None => false
  end.

(** Keyword arguments, in the order they were passed; the keys of a call
    are pairwise distinct. *)
Definition kwargs : Type := list (string * pyval).

(** [configure(self, **opts)].  The result is the value returned to the
    caller: [None] for Python's [None], [Some d] for a dictionary [d]. *)
Fixpoint configure (opts : kwargs) : M ToolTip (option (gmap string pyval)) :=
  match opts with
  | [] => ret None
  | (key, v) :: rest =>
      do o <- gets _opts;
      if has_key o key then
        modify (set_opts (<[key := v]> o)) >>
        configure rest
      else
        let KeyError := PStr (unknown_option_message key) in
        raise (py_raise KeyError)
  end.

(** The option dictionary built at the start of [__init__]. *)
Definition default_opts (text delay : pyval) : gmap string pyval :=
  list_to_map
    [ ("anchor", PStr "center");
      ("bd", PInt 1);
      ("bg", PStr "lightyellow");
      ("delay", delay);
      ("fg", PStr "black");
      ("follow_mouse", PInt 0);
      ("font", PNone);
      ("justify", PStr "left");
      ("padx", PInt 4);
      ("pady", PInt 2);
      ("relief", PStr "solid");
      ("state", PStr "normal");
      ("text", text);
      ("textvariable", PNone);
      ("width", PInt 0);
      ("wraplength", PInt 150) ].

(** The defaults of the [text] and [delay] parameters. *)
Definition default_text : pyval := PStr "Your text here".
Definition default_delay : pyval := PInt 1500.

(** [__init__(self, master, text, delay, **opts)], run on the object being
    built.  The three bindings made for every tooltip ([<Enter>],
    [<Leave>], [<ButtonPress>]) are the event dispatch below; the
    conditional [<Motion>] binding is recorded in [_id4]. *)
Definition __init__ (text delay : pyval) (opts : kwargs) : M ToolTip unit :=
  modify (set_opts (default_opts text delay)) >>
  configure opts >>
  modify (set_tipwindow None) >>
  modify (set_id None) >>
  modify (fun t => mkToolTip (_opts t) (_tipwindow t) (_id t) (_id4 t) 0) >>
  do fm <- opt "follow_mouse";
  if truthy fm then
    modify (fun t =>
      mkToolTip (_opts t) (_tipwindow t) (_id t) (Some "<Motion>") (_follow_mouse t)) >>
    modify (fun t => mkToolTip (_opts t) (_tipwindow t) (_id t) (_id4 t) 1)
  else ret tt.

(** [__init__] run on a new object, its parameters already bound to
    [text], [delay] and [opts]: the object it leaves, or the exception it
    ends in.  Every tooltip a call of the constructor returns is such an
    object ([ToolTip_new] below, lemma [ToolTip_new_init]). *)
Definition ToolTip_init (text delay : pyval) (opts : kwargs) : res ToolTip :=
  match __init__ text delay opts (mkToolTip ∅ None None None 0) with
  | (t, Ret _) => Ret t
  | (_, Raise e) => Raise e
  end.

(** *** The call of [ToolTip] with positional arguments and keywords *)

(** The parameters of [__init__] before [**opts] (line 95). *)
Definition parameters : list string := ["self"; "master"; "text"; "delay"].

(** What the parameters are bound to; [arg_opts] is the dictionary that
    [**opts] receives. *)
Record arguments : Type := mkArguments {
  arg_master : pyval;
  arg_text : pyval;
  arg_delay : pyval;
  arg_opts : kwargs
}.

(** The value a keyword of the call gives to the parameter [name]. *)
Definition keyword (name : string) (kw : kwargs) : option pyval :=
  snd <$> head (filter (λ kv, fst kv = name) kw).

(** The first keyword of the call that names a parameter already filled by
    a positional argument. *)
Fixpoint first_collision (filled : list string) (kw : kwargs)
  : option string :=
  match kw with
  | [] => None
  | (key, _) :: rest =>
      if bool_decide (key ∈ filled) then Some key
      else first_collision filled rest
  end.

(** A positional argument if there is one, else the keyword. *)
Definition argument (pos kwd : option pyval) : option pyval :=
  match pos with
  | Some v => Some v
  | None => kwd
  end.

(** Python's binding of the positional arguments [args] and the keywords
    [kw] of a call of [ToolTip] to the
    signature [(self, master, text='Your text here', delay=1500, **opts)].
    [self] and the positional arguments fill the first parameters; a
    keyword naming a filled parameter, more than three positional
    arguments, or no [master] at all is a [TypeError] raised before the
    body runs (worded as CPython 3.10 and later word it); the keywords that
    name no parameter go to [opts], in the order of the call. *)
Definition bind_arguments (args : list pyval) (kw : kwargs) : res arguments :=
  match first_collision (take (S (length args)) parameters) kw with
  | Some name =>
      Raise (TypeError
        (String.append "ToolTip.__init__() got multiple values for argument '"
           (String.append name "'")))
  | None =>
      if Nat.ltb 3 (length args) then
        Raise (TypeError
          (String.append
             "ToolTip.__init__() takes from 2 to 4 positional arguments but "
             (String.append (pretty (S (length args))) " were given")))
      else
        match argument (args !! 0%nat) (keyword "master" kw) with
        | None =>
            Raise (TypeError
              "ToolTip.__init__() missing 1 required positional argument: 'master'")
        | Some master =>
            Ret (mkArguments master
                   (default default_text
                      (argument (args !! 1%nat) (keyword "text" kw)))
                   (default default_delay
                      (argument (args !! 2%nat) (keyword "delay" kw)))
                   (filter (λ kv, fst kv ∉ parameters) kw))
        end
  end.

(** The call of [ToolTip] with the positional arguments [args] and the
    keywords [kw]: the object, or the exception the call ended
    in.  The master is the widget whose timers and popups [Tk] records. *)
Definition ToolTip_new (args : list pyval) (kw : kwargs) : res ToolTip :=
  match bind_arguments args kw with
  | Ret a => ToolTip_init (arg_text a) (arg_delay a) (arg_opts a)
  | Raise e => Raise e
  end.

(** [_unschedule(self)].  A timer name ["after#n"] is a non-empty string,
    so [if id:] tests for [None]. *)
Definition _unschedule : M world unit :=
  do id <- gets (fun w => _id (self w));
  modify (on_self (set_id None)) >>
  match id with
  | Some id => after_cancel id
  | None => ret tt
  end.

(** [_hide(self)].  A [Toplevel] object is always true. *)
Definition _hide : M world unit :=
  do tw <- gets (fun w => _tipwindow (self w));
  modify (on_self (set_tipwindow None)) >>
  match tw with
  | Some tw => destroy tw
  | None => ret tt
  end.

(** *** Placement *)

(** [twx / 2] is Python's true division and makes [x] a float.  The
    operands are pixel counts, so every intermediate value is an integer or
    a half-integer far below 2^52 in magnitude, and the float operations
    are exact: [x] is modelled by the rational it denotes. *)
Definition Qltb (a b : Q) : bool := negb (Qle_bool b a).

(** ["%d" % x]: conversion to an integer, rounding towards zero. *)
Definition format_d (x : Q) : Z := Z.quot (Qnum x) (Zpos (Qden x)).

(** [coords(self)], with the toolkit's answers in [g]. *)
Definition coords (g : geometry) : M world (Q * Z) :=
  do tw <- gets (fun w => _tipwindow (self w));
  match tw with
  | None =>
      raise (AttributeError
               "'NoneType' object has no attribute 'winfo_reqwidth'")
  | Some _ =>
      let twx := winfo_reqwidth g in
      let twy := winfo_reqheight g in
      let w := winfo_screenwidth g in
      let h := winfo_screenheight g in
      do follow <- gets (fun w => _follow_mouse (self w));
      let y :=
        if truthy (PInt follow) then
          let y := winfo_pointery g + 20 in
          if y + twy >? h then y - twy - 30 else y
        else
          let y := winfo_rooty g + winfo_height g + 3 in
          if y + twy >? h then winfo_rooty g - twy - 3 else y in
      let x := (inject_Z (winfo_pointerx g) - inject_Z twx / 2)%Q in
      let x :=
        if Qltb x 0 then 0%Q
        else if Qltb (inject_Z w) (x + inject_Z twx) then inject_Z (w - twx)
        else x in
      ret (x, y)
  end.

(** [del d[key]] *)
Definition del {S} (key : string) (d : gmap string pyval)
  : M S (gmap string pyval) :=
  if has_key d key then ret (delete key d) else raise (KeyError key).

(** [create_contents(self)].  Without a popup the label would go to the
    default root window, which is not part of this model. *)
Definition create_contents : M world unit :=
  do opts <- gets (fun w => _opts (self w));
  do opts <- del "delay" opts;
  do opts <- del "follow_mouse" opts;
  do opts <- del "state" opts;
  do tw <- gets (fun w => _tipwindow (self w));
  match tw with
  | Some tw => pack_Label opts tw
  | None => ret tt
  end.

(** [_show(self)] *)
Definition _show (g : geometry) : M world unit :=
  do state <- lift (opt "state");
  if eq_disabled state then
    _unschedule
  else
    do tipwindow <- gets (fun w => _tipwindow (self w));
    match tipwindow with
    | Some _ => ret tt
    | None =>
        do tw <- new_Toplevel;
        modify (on_self (set_tipwindow (Some tw))) >>
        withdraw tw >>
        wm_overrideredirect tw >>
        (if String.eqb (windowingsystem g) "aqua"
         then MacWindowStyle tw else ret tt) >>
        create_contents >>
        do xy <- coords g;
        wm_geometry (format_d (fst xy), snd xy) tw >>
        deiconify tw
    end.

(** [_schedule(self)] *)
Definition _schedule : M world unit :=
  _unschedule >>
  do state <- lift (opt "state");
  if eq_disabled state then
    ret tt
  else
    do delay <- lift (opt "delay");
    do id <- after delay;
    modify (on_self (set_id (Some id))).

(** [enter], [leave] and [motion], the handlers bound to the master. *)
Definition enter : M world unit := _schedule.

Definition leave : M world unit :=
  _unschedule >>
  _hide.

Definition motion (g : geometry) : M world unit :=
  do tipwindow <- gets (fun w => _tipwindow (self w));
  match tipwindow with
  | Some tw =>
      do follow <- gets (fun w => _follow_mouse (self w));
      if truthy (PInt follow) then
        do xy <- coords g;
        wm_geometry (format_d (fst xy), snd xy) tw
      else ret tt
  | None => ret tt
  end.

(** ** Events *)

(** What can happen to a tooltip: the pointer events on its master, the
    expiry of a timer, and a [configure] call by the application. *)
Inductive event : Type :=
| Enter
| Leave
| ButtonPress
| Motion (g : geometry)
| Timer (id : nat) (g : geometry)
| Configure (opts : kwargs).

(** The toolkit forgets a timer when it expires, before it runs the
    callback. *)
Definition expire (id : nat) (w : world) : world :=
  on_tk (fun k => set_timers (delete id (timers k)) k) w.

(** One event.  Tk runs a callback only if it is bound (or, for a timer, if
    the timer is still pending, which it then no longer is); an exception a
    callback ends in is reported by the main loop, one of [configure] goes
    to the caller, and in both cases the object stays as the method left
    it. *)
Definition dispatch (e : event) (w : world) : world :=
  match e with
  | Enter => fst (enter w)
  | Leave => fst (leave w)
  | ButtonPress => fst (leave w)
  | Motion g =>
      match _id4 (self w) with
      | Some _ => fst (motion g w)
      | None => w
      end
  | Timer id g =>
      match timers (tk w) !! id with
      | Some _ =>
          fst (_show g (expire id w))
      | None => w
      end
  | Configure opts => fst (lift (configure opts) w)
  end.

Definition run (es : list event) (w : world) : world :=
  fold_left (fun w e => dispatch e w) es w.

(** A freshly built tooltip: none of its timers or popups exist yet. *)
Definition start (t : ToolTip) : world := mkWorld t (mkTk ∅ 0 ∅ 0).

(** ** Predicates used in the statements *)

(** The [state] option reads ['disabled']. *)
Definition is_disabled (w : world) : bool :=
  match _opts (self w) !! "state" with
  | Some v => eq_disabled v
  | None => false
  end.

(** The delay [_schedule] starts a timer with, if it starts one: the tooltip
    is not disabled (and no option lookup fails). *)
Definition due_delay (w : world) : option pyval :=
  match _opts (self w) !! "state" with
  | Some st => if eq_disabled st then None else _opts (self w) !! "delay"
  | None => None
  end.

(** Every pending timer of the tooltip is the one recorded in [_id]. *)
Definition timer_inv (w : world) : Prop :=
  ∀ id ms, timers (tk w) !! id = Some ms → _id (self w) = Some id.

(** Every existing popup of the tooltip is the one recorded in
    [_tipwindow]. *)
Definition window_inv (w : world) : Prop :=
  ∀ n tl, windows (tk w) !! n = Some tl → _tipwindow (self w) = Some n.

(** The invariant of the event loop. *)
Definition inv (w : world) : Prop := timer_inv w ∧ window_inv w.

(** Timer names are handed out in increasing order. *)
Definition fresh_inv (w : world) : Prop :=
  ∀ id ms, timers (tk w) !! id = Some ms → (id < next_timer (tk w))%nat.

(** The IDLE state: no timer and no popup, and both handles empty. *)
Definition idle (w : world) : Prop :=
  _id (self w) = None ∧ _tipwindow (self w) = None ∧
  timers (tk w) = ∅ ∧ windows (tk w) = ∅.

(** The events whose handler may lead to a popup. *)
Definition may_show (e : event) : bool :=
  match e with
  | Enter | Timer _ _ => true
  | _ => false
  end.

(** The [state] option is ['disabled'] whenever an [Enter] or a [Timer]
    event of the sequence is handled. *)
Fixpoint disabled_at_shows (es : list event) (w : world) : Prop :=
  match es with
  | [] => True
  | e :: es' =>
      (may_show e = true → is_disabled w = true) ∧
      disabled_at_shows es' (dispatch e w)
  end.

(** ** Scenarios *)

(** Screen 1000x800, popup 100x30, pointer at (950, 780); the master at
    screen row 100 with height 20. *)
Definition scenario_geometry : geometry :=
  mkGeometry 100 30 1000 800 950 780 100 20 "x11".

(** Screen 100 wide, popup 200 wide, pointer at column 150. *)
Definition wide_popup_geometry : geometry :=
  mkGeometry 200 30 100 800 150 400 100 20 "x11".

(** A tooltip as [ToolTip(master, **opts)] builds it when the options are
    all recognized. *)
Definition tooltip_of (opts : kwargs) : ToolTip :=
  fst (__init__ default_text default_delay opts (mkToolTip ∅ None None None 0)).

(** A follow-mouse and an anchored tooltip, each with its popup shown. *)
Definition shown_follow : world :=
  run [Enter; Timer 0 scenario_geometry]
      (start (tooltip_of [("follow_mouse", PInt 1)])).

Definition shown_anchored : world :=
  run [Enter; Timer 0 scenario_geometry] (start (tooltip_of [])).

(** The popup is shown, the pointer enters again and the application
    disables the tooltip: the popup is on screen and the second timer is
    pending. *)
Definition disabled_with_popup : world :=
  run [Enter; Timer 0 scenario_geometry; Enter;
       Configure [("state", PStr "disabled")]]
      (start (tooltip_of [])).

(** The popup is shown, the pointer enters again, the application disables
    the tooltip, and the second timer expires. *)
Definition shown_then_disabled : world :=
  expire 1
    (run [Enter; Timer 0 scenario_geometry; Enter;
          Configure [("state", PStr "disabled")]]
         (start (tooltip_of []))).

(** ** Further predicates and scenarios *)

(** The names [__init__] puts into [_opts]. *)
Definition option_names : gset string :=
  list_to_set
    [ "anchor"; "bd"; "bg"; "delay"; "fg"; "follow_mouse"; "font"; "justify";
      "padx"; "pady"; "relief"; "state"; "text"; "textvariable"; "width";
      "wraplength" ].

(** The dictionary [d] after [d[key] = v] for each pair, in order. *)
Definition store_all (opts : kwargs) (d : gmap string pyval)
  : gmap string pyval :=
  foldl (λ d kv, <[fst kv := snd kv]> d) d opts.

(** The options passed to the label of the popup. *)
Definition label_opts (d : gmap string pyval) : gmap string pyval :=
  delete "state" (delete "follow_mouse" (delete "delay" d)).

(** The popup is recorded in [_tipwindow] exactly when it exists, and then
    it is the only window, on screen, undecorated, filled and placed. *)
Definition shown_inv (w : world) : Prop :=
  match _tipwindow (self w) with
  | None => windows (tk w) = ∅
  | Some n =>
      ∃ tl, windows (tk w) = {[ n := tl ]} ∧
            withdrawn tl = false ∧ overrideredirect tl = true ∧
            is_Some (label tl) ∧ is_Some (position tl)
  end.

Definition is_enter (e : event) : bool :=
  match e with
  | Enter => true
  | _ => false
  end.

Definition is_motion (e : event) : bool :=
  match e with
  | Motion _ => true
  | _ => false
  end.

(** A window after [wm_geometry] moved it to [p]. *)
Definition moved (p : Z * Z) (tl : Toplevel) : Toplevel :=
  mkToplevel (withdrawn tl) (overrideredirect tl) (help_style tl) (label tl)
             (Some p).

(** A follow-mouse tooltip whose popup is shown, as the demo builds it. *)
Definition demo_follow : ToolTip :=
  tooltip_of [("follow_mouse", PInt 1)].

(** The pointer near the top of the screen with a tall popup. *)
Definition top_geometry : geometry :=
  mkGeometry 100 790 1000 800 500 5 100 20 "x11".

(** Unfolds the monad operations. *)
Ltac unfold_m :=
  unfold bind, ret, raise, gets, modify, lift, on_self, on_tk in *;
  simpl in *.

(** * Properties *)

(** ** The scenarios are what the code builds *)

Example tooltip_of_default :
  ToolTip_new [PObj 0 true] [] = Ret (tooltip_of []).
Proof. vm_compute. reflexivity. Qed.

Example tooltip_of_follow_mouse :
  ToolTip_new [PObj 0 true] [("follow_mouse", PInt 1)] =
  Ret (tooltip_of [("follow_mouse", PInt 1)]).
Proof. vm_compute. reflexivity. Qed.

(** [ToolTip(master=root)]: the keyword is bound to the parameter and is
    not an option. *)
Example master_by_keyword :
  ToolTip_new [] [("master", PObj 0 true)] = Ret (tooltip_of []).
Proof. vm_compute. reflexivity. Qed.

(** [ToolTip(master, 'a', text='b')]: the call fails before the body
    runs. *)
Example text_given_twice :
  ToolTip_new [PObj 0 true; PStr "a"] [("text", PStr "b")] =
  Raise (TypeError
           "ToolTip.__init__() got multiple values for argument 'text'").
Proof. vm_compute. reflexivity. Qed.

(** [ToolTip(master, text='b', delay=10)] is [ToolTip(master, 'b', 10)]. *)
Example text_by_keyword :
  ToolTip_new [PObj 0 true] [("text", PStr "b"); ("delay", PInt 10)] =
  ToolTip_new [PObj 0 true; PStr "b"; PInt 10] [].
Proof. vm_compute. reflexivity. Qed.

(** [ToolTip()] and [ToolTip(master, 'a', 10, 'x')]. *)
Example master_missing :
  ToolTip_new [] [] =
  Raise (TypeError
           "ToolTip.__init__() missing 1 required positional argument: 'master'").
Proof. vm_compute. reflexivity. Qed.

Example too_many_positional :
  ToolTip_new [PObj 0 true; PStr "a"; PInt 10; PStr "x"] [] =
  Raise (TypeError
           "ToolTip.__init__() takes from 2 to 4 positional arguments but 5 were given").
Proof. vm_compute. reflexivity. Qed.

(** After [Enter] and the expiry of the timer the follow-mouse popup is on
    screen at (900, 740), and no timer is pending. *)
Example shown_follow_popup :
  _tipwindow (self shown_follow) = Some 0%nat ∧
  (position <$> windows (tk shown_follow) !! 0%nat) = Some (Some (900, 740)) ∧
  (withdrawn <$> windows (tk shown_follow) !! 0%nat) = Some false ∧
  timers (tk shown_follow) = ∅.
Proof. vm_compute. by repeat split. Qed.

(** ** The handlers, equationally *)

Lemma unschedule_eq (w : world) :
  _unschedule w =
  (mkWorld (set_id None (self w))
     (match _id (self w) with
      | Some id => set_timers (delete id (timers (tk w))) (tk w)
      | None => tk w
      end), Ret tt).
Proof.
  unfold _unschedule, after_cancel. unfold_m.
  destruct (_id (self w)); reflexivity.
Qed.

Lemma hide_eq (w : world) :
  _hide w =
  (mkWorld (set_tipwindow None (self w))
     (match _tipwindow (self w) with
      | Some tw => set_windows (delete tw (windows (tk w))) (tk w)
      | None => tk w
      end), Ret tt).
Proof.
  unfold _hide, destroy. unfold_m.
  destruct (_tipwindow (self w)); reflexivity.
Qed.

Lemma leave_eq (w : world) :
  leave w =
  (mkWorld (set_tipwindow None (set_id None (self w)))
     (mkTk
        (match _tipwindow (self w) with
         | Some tw => delete tw (windows (tk w))
         | None => windows (tk w)
         end)
        (next_window (tk w))
        (match _id (self w) with
         | Some id => delete id (timers (tk w))
         | None => timers (tk w)
         end)
        (next_timer (tk w))), Ret tt).
Proof.
  unfold leave, bind. rewrite unschedule_eq, hide_eq. simpl.
  destruct w as [[o tw i i4 fm] [ws nw ts nt]]; simpl.
  destruct tw, i; reflexivity.
Qed.

(** ** Timers *)

Lemma cancel_recorded_timer (w : world) :
  timer_inv w →
  match _id (self w) with
  | Some id => delete id (timers (tk w))
  | None => timers (tk w)
  end = ∅.
Proof.
  intros Hinv. apply map_empty. intros j.
  destruct (_id (self w)) as [id|] eqn:Hid.
  - destruct (decide (id = j)) as [->|Hne].
    + apply lookup_delete_eq.
    + rewrite lookup_delete_ne by done.
      destruct (timers (tk w) !! j) as [ms|] eqn:Hj; [|done].
      apply Hinv in Hj. congruence.
  - destruct (timers (tk w) !! j) as [ms|] eqn:Hj; [|done].
    apply Hinv in Hj. congruence.
Qed.

Lemma timer_inv_size (w : world) :
  timer_inv w → (size (timers (tk w)) ≤ 1)%nat.
Proof.
  intros Hinv.
  destruct (_id (self w)) as [id|] eqn:Hid.
  - rewrite <- size_dom.
    transitivity (size ({[id]} : gset nat)); [|by rewrite size_singleton].
    apply subseteq_size. intros j [ms Hj]%elem_of_dom.
    apply Hinv in Hj. rewrite Hid in Hj. set_solver.
  - pose proof (cancel_recorded_timer w Hinv) as He. rewrite Hid in He.
    rewrite He, map_size_empty. lia.
Qed.

(** What [_schedule] leaves behind: no timer when the tooltip is disabled
    (or the lookup of an option fails), else exactly the new one. *)
Lemma schedule_timers (w : world) :
  timer_inv w →
  let w' := fst (_schedule w) in
  windows (tk w') = windows (tk w) ∧
  next_window (tk w') = next_window (tk w) ∧
  _tipwindow (self w') = _tipwindow (self w) ∧
  _opts (self w') = _opts (self w) ∧
  match due_delay w with
  | Some ms =>
      _id (self w') = Some (next_timer (tk w)) ∧
      timers (tk w') = {[ next_timer (tk w) := ms ]} ∧
      next_timer (tk w') = S (next_timer (tk w))
  | None =>
      _id (self w') = None ∧ timers (tk w') = ∅ ∧
      next_timer (tk w') = next_timer (tk w)
  end.
Proof.
  intros Hinv. pose proof (cancel_recorded_timer w Hinv) as He.
  unfold _schedule, bind, due_delay. rewrite unschedule_eq.
  unfold lift, opt, after, modify, on_self, ret. simpl.
  destruct w as [[o tw i i4 fm] [ws nw ts nt]]; simpl in *.
  destruct (o !! "state") as [st|]; simpl;
    [destruct (eq_disabled st); simpl;
     [|destruct (o !! "delay") as [ms|]; simpl]|];
    destruct i; simpl; rewrite <- ?insert_empty, ?He; by repeat split.
Qed.

(** ** Popups *)

Lemma destroy_recorded_window (w : world) :
  window_inv w →
  match _tipwindow (self w) with
  | Some tw => delete tw (windows (tk w))
  | None => windows (tk w)
  end = ∅.
Proof.
  intros Hinv. apply map_empty. intros j.
  destruct (_tipwindow (self w)) as [tw|] eqn:Htw.
  - destruct (decide (tw = j)) as [->|Hne].
    + apply lookup_delete_eq.
    + rewrite lookup_delete_ne by done.
      destruct (windows (tk w) !! j) as [tl|] eqn:Hj; [|done].
      apply Hinv in Hj. congruence.
  - destruct (windows (tk w) !! j) as [tl|] eqn:Hj; [|done].
    apply Hinv in Hj. congruence.
Qed.

Lemma window_inv_size (w : world) :
  window_inv w → (size (windows (tk w)) ≤ 1)%nat.
Proof.
  intros Hinv.
  destruct (_tipwindow (self w)) as [tw|] eqn:Htw.
  - rewrite <- size_dom.
    transitivity (size ({[tw]} : gset nat)); [|by rewrite size_singleton].
    apply subseteq_size. intros j [tl Hj]%elem_of_dom.
    apply Hinv in Hj. rewrite Htw in Hj. set_solver.
  - pose proof (destroy_recorded_window w Hinv) as He. rewrite Htw in He.
    rewrite He, map_size_empty. lia.
Qed.

Lemma show_disabled (g : geometry) (w : world) :
  is_disabled w = true → _show g w = _unschedule w.
Proof.
  unfold is_disabled, _show, bind, lift, opt. intros Hd.
  destruct (_opts (self w) !! "state") as [st|]; [|done].
  destruct w as [t k]; simpl in *. by rewrite Hd.
Qed.

Lemma show_visible (g : geometry) (w : world) (tw : nat) :
  is_disabled w = false → _tipwindow (self w) = Some tw →
  fst (_show g w) = w.
Proof.
  unfold is_disabled, _show, bind, lift, opt, gets, ret. intros Hd Htw.
  destruct w as [t k]; simpl in *.
  destruct (_opts t !! "state") as [st|]; [|done]. simpl.
  rewrite Hd. simpl. by rewrite Htw.
Qed.

(** Without a popup, [_show] either stops at the lookup of the [state]
    option or creates exactly one window, the next one, and records it. *)
Lemma show_hidden (g : geometry) (w : world) :
  is_disabled w = false → _tipwindow (self w) = None →
  fst (_show g w) = w ∨
  ∃ tl, fst (_show g w) =
        mkWorld (set_tipwindow (Some (next_window (tk w))) (self w))
          (mkTk (<[next_window (tk w) := tl]> (windows (tk w)))
                (S (next_window (tk w))) (timers (tk w)) (next_timer (tk w))).
Proof.
  unfold is_disabled, _show, bind, lift, opt, gets, ret. intros Hd Htw.
  destruct w as [[o tw i i4 fm] [ws nw ts nt]]; simpl in *. subst tw.
  destruct (o !! "state") as [st|]; [|by left]. simpl.
  rewrite Hd. simpl. right.
  unfold create_contents, coords, del, withdraw, wm_overrideredirect,
    MacWindowStyle, pack_Label, wm_geometry, deiconify, alter_window.
  unfold new_Toplevel, set_windows, set_tipwindow. unfold_m.
  destruct (String.eqb (windowingsystem g) "aqua"); simpl;
    (destruct (has_key o "delay"); simpl;
     [destruct (has_key (delete "delay" o) "follow_mouse"); simpl;
      [destruct (has_key (delete "follow_mouse" (delete "delay" o)) "state");
       simpl|]|]);
    rewrite ?alter_insert_eq; eexists; reflexivity.
Qed.

(** ** What each handler leaves alone *)

Lemma configure_frame (opts : kwargs) (t : ToolTip) :
  let t' := fst (configure opts t) in
  _tipwindow t' = _tipwindow t ∧ _id t' = _id t ∧
  _id4 t' = _id4 t ∧ _follow_mouse t' = _follow_mouse t.
Proof.
  revert t. induction opts as [|[key v] rest IH]; intros t; simpl; [done|].
  unfold bind, gets, modify, raise. simpl.
  destruct (has_key (_opts t) key); simpl; [|done].
  specialize (IH (set_opts (<[key:=v]> (_opts t)) t)). simpl in IH.
  destruct (configure rest _) as [t' [r|e]]; simpl in *; exact IH.
Qed.

Lemma lift_configure (opts : kwargs) (w : world) :
  fst (lift (configure opts) w) = mkWorld (fst (configure opts (self w))) (tk w).
Proof. unfold lift. by destruct (configure opts (self w)). Qed.

Lemma motion_frame (g : geometry) (w : world) :
  let w' := fst (motion g w) in
  self w' = self w ∧ timers (tk w') = timers (tk w) ∧
  next_timer (tk w') = next_timer (tk w) ∧
  next_window (tk w') = next_window (tk w) ∧
  dom (windows (tk w')) = dom (windows (tk w)).
Proof.
  unfold motion, coords, wm_geometry, alter_window. unfold_m.
  destruct w as [[o tw i i4 fm] [ws nw ts nt]]; simpl.
  destruct tw as [tw|]; simpl; [|done].
  destruct (negb (fm =? 0)); simpl; [|done].
  by rewrite dom_alter_L.
Qed.

Lemma timer_inv_empty (w : world) : timers (tk w) = ∅ → timer_inv w.
Proof. intros He id ms. by rewrite He, lookup_empty. Qed.

Lemma window_inv_empty (w : world) : windows (tk w) = ∅ → window_inv w.
Proof. intros He n tl. by rewrite He, lookup_empty. Qed.

(** ** The invariant of the event loop *)

Lemma inv_start (t : ToolTip) : inv (start t).
Proof. split; [by apply timer_inv_empty | by apply window_inv_empty]. Qed.

Lemma inv_leave (w : world) : inv w → inv (fst (leave w)).
Proof.
  intros [Ht Hw]. rewrite leave_eq. simpl.
  split; [apply timer_inv_empty | apply window_inv_empty]; simpl.
  - by apply cancel_recorded_timer.
  - by apply destroy_recorded_window.
Qed.

Lemma inv_enter (w : world) : inv w → inv (fst (enter w)).
Proof.
  intros [Ht Hw]. unfold enter.
  destruct (schedule_timers w Ht) as (Hws & _ & Htw & _ & Hs).
  split.
  - destruct (due_delay w) as [ms|].
    + destruct Hs as (Hid & Hts & _). intros id ms'. rewrite Hts, Hid.
      intros [-> _]%lookup_singleton_Some. done.
    + destruct Hs as (_ & Hts & _). by apply timer_inv_empty.
  - intros n tl. rewrite Hws, Htw. apply Hw.
Qed.

Lemma inv_motion (g : geometry) (w : world) : inv w → inv (fst (motion g w)).
Proof.
  intros [Ht Hw]. destruct (motion_frame g w) as (Hs & Hts & _ & _ & Hd).
  split.
  - intros id ms. rewrite Hts, Hs. apply Ht.
  - intros n tl Hn. rewrite Hs.
    assert (n ∈ dom (windows (tk w))) as [tl' Hn']%elem_of_dom
      by (rewrite <- Hd; apply elem_of_dom; eauto).
    by eapply Hw.
Qed.

Lemma inv_configure (opts : kwargs) (w : world) :
  inv w → inv (fst (lift (configure opts) w)).
Proof.
  intros [Ht Hw]. rewrite lift_configure.
  destruct (configure_frame opts (self w)) as (Htw & Hid & _).
  split; intros n x; simpl; rewrite ?Htw, ?Hid; [apply Ht | apply Hw].
Qed.

Lemma expire_recorded (id : nat) (w : world) :
  timer_inv w → is_Some (timers (tk w) !! id) →
  self (expire id w) = self w ∧ _id (self w) = Some id ∧
  timers (tk (expire id w)) = ∅ ∧ windows (tk (expire id w)) = windows (tk w) ∧
  next_window (tk (expire id w)) = next_window (tk w) ∧
  next_timer (tk (expire id w)) = next_timer (tk w).
Proof.
  intros Ht [ms Hid]. pose proof (Ht _ _ Hid) as Hrec.
  pose proof (cancel_recorded_timer w Ht) as He. rewrite Hrec in He.
  unfold expire, on_tk. simpl. by repeat split.
Qed.

Lemma inv_expire (id : nat) (w : world) :
  inv w → is_Some (timers (tk w) !! id) → inv (expire id w).
Proof.
  intros [Ht Hw] Hid.
  destruct (expire_recorded id w Ht Hid) as (Hs & _ & Hts & Hws & _).
  split; [by apply timer_inv_empty|].
  intros n tl. rewrite Hws, Hs. apply Hw.
Qed.

Lemma inv_unschedule (w : world) : inv w → inv (fst (_unschedule w)).
Proof.
  intros [Ht Hw]. rewrite unschedule_eq. split.
  - apply timer_inv_empty. simpl.
    pose proof (cancel_recorded_timer w Ht) as He.
    destruct (_id (self w)); simpl; exact He.
  - intros n tl. simpl.
    replace (windows _) with (windows (tk w)) by (by destruct (_id (self w))).
    apply Hw.
Qed.

Lemma inv_show (g : geometry) (w : world) : inv w → inv (fst (_show g w)).
Proof.
  intros Hinv. destruct (is_disabled w) eqn:Hd.
  - rewrite show_disabled by done. by apply inv_unschedule.
  - destruct (_tipwindow (self w)) as [tw|] eqn:Htw.
    + by erewrite show_visible.
    + destruct (show_hidden g w Hd Htw) as [->|[tl ->]]; [done|].
      destruct Hinv as [Ht Hw]. split.
      * intros id ms. simpl. apply Ht.
      * pose proof (destroy_recorded_window w Hw) as He. rewrite Htw in He.
        intros n tl'. simpl. rewrite He.
        intros [[-> _]|[_ Hn]]%lookup_insert_Some; [done|].
        by rewrite lookup_empty in Hn.
Qed.

Lemma inv_dispatch (e : event) (w : world) : inv w → inv (dispatch e w).
Proof.
  intros Hinv. destruct e as [| | |g|id g|opts]; simpl.
  - by apply inv_enter.
  - by apply inv_leave.
  - by apply inv_leave.
  - destruct (_id4 (self w)); [by apply inv_motion | done].
  - destruct (timers (tk w) !! id) eqn:Hid; [|done].
    apply inv_show, inv_expire; eauto.
  - by apply inv_configure.
Qed.

Lemma run_app (es1 es2 : list event) (w : world) :
  run (es1 ++ es2)%list w = run es2 (run es1 w).
Proof. apply fold_left_app. Qed.

Lemma inv_run (es : list event) (w : world) : inv w → inv (run es w).
Proof.
  revert w. induction es as [|e es IH]; intros w Hinv; simpl; [done|].
  apply IH. by apply inv_dispatch.
Qed.

Lemma inv_reachable (t : ToolTip) (es : list event) : inv (run es (start t)).
Proof. apply inv_run, inv_start. Qed.

(** ** Placement *)

Lemma Qltb_lt (a b : Q) : Qltb a b = true ↔ (a < b)%Q.
Proof.
  unfold Qltb. rewrite negb_true_iff.
  split.
  - intros Hle. apply Qnot_le_lt. intros Hba.
    apply Qle_bool_iff in Hba. congruence.
  - intros Hlt. destruct (Qle_bool b a) eqn:Hle; [|done].
    apply Qle_bool_iff in Hle. exfalso. by eapply Qlt_not_le.
Qed.

Lemma Qltb_ge (a b : Q) : Qltb a b = false ↔ (b <= a)%Q.
Proof.
  unfold Qltb. rewrite negb_false_iff. apply Qle_bool_iff.
Qed.

Lemma inject_Z_minus (a b : Z) :
  inject_Z (a - b) = (inject_Z a - inject_Z b)%Q.
Proof.
  unfold Z.sub, Qminus. by rewrite inject_Z_plus, inject_Z_opp.
Qed.

(** The centred column [pointerx - twx / 2] is negative exactly when twice
    the pointer column is below the popup width. *)
Lemma centred_negative (px twx : Z) :
  (inject_Z px - inject_Z twx / 2 < 0)%Q ↔ 2 * px < twx.
Proof.
  rewrite (Zlt_Qlt (2 * px) twx), inject_Z_mult.
  change (inject_Z 2) with 2%Q. unfold Qdiv. change (/ 2)%Q with (1 # 2)%Q.
  split; intros H; lra.
Qed.

(** C1, as amended.  In follow-mouse mode, when the popup placed 20 pixels
    below the pointer would pass the bottom of the screen, [coords] returns
    the row [pointery - popupHeight - 10]: the subtraction of
    [popupHeight + 30] starts from the row [pointery + 20].  With a
    1000x800 screen, a 100x30 popup and the pointer at (950, 780) the
    result is (900, 740). *)
Theorem coords_follow_mouse_flip :
  (∀ (w : world) (g : geometry) (tw : nat),
     _tipwindow (self w) = Some tw →
     truthy (PInt (_follow_mouse (self w))) = true →
     winfo_pointery g + 20 + winfo_reqheight g > winfo_screenheight g →
     ∃ x, coords g w =
          (w, Ret (x, winfo_pointery g - winfo_reqheight g - 10))) ∧
  (∃ x, coords scenario_geometry shown_follow = (shown_follow, Ret (x, 740)) ∧
        (x == 900)%Q).
Proof.
  split.
  - intros w g tw Htw Hfm Hover.
    unfold coords. unfold_m. rewrite Htw. simpl in *. rewrite Hfm.
    destruct (Z.gtb_spec (winfo_pointery g + 20 + winfo_reqheight g)
                (winfo_screenheight g)) as [_|Hle]; [|lia].
    eexists. do 2 f_equal. f_equal. lia.
  - eexists. split; [vm_compute; reflexivity | reflexivity].
Qed.

Lemma coords_follow_mouse_flip_witness :
  ∃ x, coords scenario_geometry shown_follow =
       (shown_follow,
        Ret (x, winfo_pointery scenario_geometry
                - winfo_reqheight scenario_geometry - 10)).
Proof.
  apply (proj1 coords_follow_mouse_flip shown_follow scenario_geometry 0%nat).
  - vm_compute. reflexivity.
  - vm_compute. reflexivity.
  - vm_compute. reflexivity.
Defined.

(** C1 as the specification states it fails: in its own scenario the popup
    overflows the bottom of the screen in follow-mouse mode, and the row
    returned is neither [pointery - popupHeight - 30] nor 720. *)
Lemma coords_follow_mouse_flip_counterexample :
  truthy (PInt (_follow_mouse (self shown_follow))) = true ∧
  winfo_pointery scenario_geometry + 20 + winfo_reqheight scenario_geometry
    > winfo_screenheight scenario_geometry ∧
  ∀ x, snd (coords scenario_geometry shown_follow) ≠
         Ret (x, winfo_pointery scenario_geometry
                 - winfo_reqheight scenario_geometry - 30) ∧
       snd (coords scenario_geometry shown_follow) ≠ Ret (x, 720).
Proof.
  split; [vm_compute; reflexivity|]. split; [vm_compute; reflexivity|].
  intros x.
  assert (snd (coords scenario_geometry shown_follow) = Ret ((1800 # 2)%Q, 740))
    as -> by (vm_compute; reflexivity).
  split; intros Heq; inversion Heq.
Qed.

(** C2, as amended.  The column is clamped by an [if]/[elif]: a popup at
    least as wide as the screen gets column 0 when the centred column is
    negative and column [screenWidth - popupWidth] (which is negative for a
    strictly wider popup) otherwise; a popup at most as wide as the screen
    gets a column in [0, screenWidth - popupWidth]. *)
Theorem coords_x_clamp (w : world) (g : geometry) (tw : nat) :
  _tipwindow (self w) = Some tw →
  ∃ x y, coords g w = (w, Ret (x, y)) ∧
    (winfo_reqwidth g >= winfo_screenwidth g →
     (2 * winfo_pointerx g < winfo_reqwidth g → (x == 0)%Q) ∧
     (2 * winfo_pointerx g >= winfo_reqwidth g →
      (x == inject_Z (winfo_screenwidth g - winfo_reqwidth g))%Q)) ∧
    (winfo_reqwidth g <= winfo_screenwidth g →
     (0 <= x)%Q ∧ (x <= inject_Z (winfo_screenwidth g - winfo_reqwidth g))%Q).
Proof.
  intros Htw. unfold coords. unfold_m. rewrite Htw. simpl.
  eexists _, _. split; [reflexivity|].
  set (x0 := (inject_Z (winfo_pointerx g) - inject_Z (winfo_reqwidth g) / 2)%Q).
  pose proof (centred_negative (winfo_pointerx g) (winfo_reqwidth g)) as Hneg.
  fold x0 in Hneg.
  rewrite inject_Z_minus.
  assert (∀ a b : Z, a <= b → (inject_Z a <= inject_Z b)%Q) as Hinj
    by (intros a b Hab; by rewrite <- Zle_Qle).
  destruct (Qltb x0 0) eqn:H0.
  - apply Qltb_lt in H0. split.
    + intros Hwide. split; [reflexivity|]. intros Hpx.
      apply Hneg in H0. lia.
    + intros Hfit. apply Hinj in Hfit. split; lra.
  - apply Qltb_ge in H0.
    destruct (Qltb (inject_Z (winfo_screenwidth g))
                (x0 + inject_Z (winfo_reqwidth g))) eqn:H1.
    + apply Qltb_lt in H1. split.
      * intros Hwide. split; [|reflexivity]. intros Hpx.
        apply Hneg in Hpx. lra.
      * intros Hfit. apply Hinj in Hfit. split; lra.
    + apply Qltb_ge in H1. split.
      * intros Hwide. assert (winfo_screenwidth g <= winfo_reqwidth g) as Hw' by lia.
        apply Hinj in Hw'. split; [|lra]. intros Hpx.
        apply Hneg in Hpx. lra.
      * intros Hfit. split; lra.
Qed.

Lemma coords_x_clamp_witness :
  ∃ x y, coords wide_popup_geometry shown_anchored =
         (shown_anchored, Ret (x, y)) ∧ (x == -100)%Q.
Proof.
  destruct (coords_x_clamp shown_anchored wide_popup_geometry 0%nat)
    as (x & y & Hxy & Hwide & _).
  - vm_compute. reflexivity.
  - exists x, y. split; [exact Hxy|].
    destruct Hwide as [_ Hright]; [vm_compute; discriminate|].
    apply Hright. vm_compute. discriminate.
Defined.

(** C2 as the specification states it fails: a popup 200 wide on a screen
    100 wide with the pointer at column 150 gets column -100, not 0. *)
Lemma coords_x_clamp_counterexample :
  winfo_reqwidth wide_popup_geometry >= winfo_screenwidth wide_popup_geometry ∧
  ∃ x y, coords wide_popup_geometry shown_anchored =
         (shown_anchored, Ret (x, y)) ∧
         (x == -100)%Q ∧ ¬ (x == 0)%Q.
Proof.
  split; [vm_compute; discriminate|].
  eexists _, _. split; [vm_compute; reflexivity|].
  split; [reflexivity | discriminate].
Qed.

(** C8.  Outside follow-mouse mode [coords] returns the row
    [rooty + height + 3] below the master when the popup placed there does
    not pass the bottom of the screen, and the row [rooty - popupHeight - 3]
    above the master otherwise; with the master at row 100 and 20 high, a
    popup 30 high and a screen 800 high, the row is 123. *)
Theorem coords_anchored (w : world) (g : geometry) (tw : nat) :
  _tipwindow (self w) = Some tw →
  truthy (PInt (_follow_mouse (self w))) = false →
  ∃ x y, coords g w = (w, Ret (x, y)) ∧
    (winfo_rooty g + winfo_height g + 3 + winfo_reqheight g
       <= winfo_screenheight g →
     y = winfo_rooty g + winfo_height g + 3) ∧
    (winfo_rooty g + winfo_height g + 3 + winfo_reqheight g
       > winfo_screenheight g →
     y = winfo_rooty g - winfo_reqheight g - 3) ∧
    (winfo_rooty g = 100 → winfo_height g = 20 → winfo_reqheight g = 30 →
     winfo_screenheight g = 800 → y = 123).
Proof.
  intros Htw Hfm. unfold coords. unfold_m. rewrite Htw. simpl. rewrite Hfm.
  eexists _, _. split; [reflexivity|].
  destruct (Z.gtb_spec (winfo_rooty g + winfo_height g + 3 + winfo_reqheight g)
              (winfo_screenheight g)) as [Hgt|Hle];
    repeat split; intros; lia.
Qed.

Lemma coords_anchored_witness :
  ∃ x y, coords scenario_geometry shown_anchored =
         (shown_anchored, Ret (x, y)) ∧ y = 123.
Proof.
  destruct (coords_anchored shown_anchored scenario_geometry 0%nat)
    as (x & y & Hxy & _ & _ & Hy).
  - vm_compute. reflexivity.
  - vm_compute. reflexivity.
  - exists x, y. split; [exact Hxy|]. apply Hy; reflexivity.
Defined.

(** ** Configuration *)

(** With only recognized keys [configure] raises nothing and returns
    [None]. *)
Lemma configure_recognized (opts : kwargs) (t : ToolTip) :
  Forall (λ kv, has_key (_opts t) (fst kv) = true) opts →
  snd (configure opts t) = Ret None.
Proof.
  revert t. induction opts as [|[key v] rest IH]; intros t Hall; [done|].
  inversion Hall as [|? ? Hkey Hrest]; subst. simpl in Hkey.
  simpl. unfold bind, gets, modify. simpl. rewrite Hkey. simpl.
  apply IH. eapply Forall_impl; [exact Hrest|].
  intros [k' v'] Hk'. simpl in *. unfold has_key in *.
  destruct (decide (key = k')) as [->|Hne].
  - by rewrite lookup_insert_eq.
  - by rewrite lookup_insert_ne.
Qed.

(** An unrecognized key ends the call in the [TypeError] of the [raise]
    statement, whatever the key: the message built from the key is a
    string, which cannot be raised. *)
Lemma configure_unrecognized (key : string) (v : pyval) (rest : kwargs)
    (t : ToolTip) :
  has_key (_opts t) key = false →
  configure ((key, v) :: rest) t =
  (t, Raise (TypeError "exceptions must derive from BaseException")).
Proof.
  intros Hkey. simpl. unfold bind, gets, raise. simpl. by rewrite Hkey.
Qed.

(** C3, the behaviour of the code.  [configure(foo=1)] on a tooltip built
    with the default options does fail, but with the [TypeError] of the
    [raise] statement, whose message does not name the key. *)
Theorem configure_unknown_key_raises_TypeError :
  configure [("foo", PInt 1)] (tooltip_of []) =
  (tooltip_of [],
   Raise (TypeError "exceptions must derive from BaseException")).
Proof. apply configure_unrecognized. vm_compute. reflexivity. Qed.

(** C4, the behaviour of the code.  [configure()] without arguments returns
    [None] and not the dictionary of options. *)
Theorem configure_no_arguments_returns_None (t : ToolTip) :
  configure [] t = (t, Ret None) ∧
  snd (configure [] t) ≠ Ret (Some (_opts t)).
Proof. split; [reflexivity | discriminate]. Qed.

(** ** The disabled tooltip *)

Lemma schedule_frame (w : world) :
  let w' := fst (_schedule w) in
  windows (tk w') = windows (tk w) ∧
  next_window (tk w') = next_window (tk w) ∧
  set_id None (self w') = set_id None (self w).
Proof.
  unfold _schedule, bind. rewrite unschedule_eq.
  unfold lift, opt, after, modify, on_self, ret. simpl.
  destruct w as [[o tw i i4 fm] [ws nw ts nt]]; simpl in *.
  destruct (o !! "state") as [st|]; simpl;
    [destruct (eq_disabled st); simpl;
     [|destruct (o !! "delay") as [ms|]; simpl]|];
    destruct i; by simpl.
Qed.

Lemma is_disabled_expire (id : nat) (w : world) :
  is_disabled (expire id w) = is_disabled w.
Proof. reflexivity. Qed.

(** An event handled while the tooltip is disabled, or one that never
    shows anything, creates no window. *)
Lemma dispatch_creates_nothing (e : event) (w : world) :
  (may_show e = true → is_disabled w = true) →
  next_window (tk (dispatch e w)) = next_window (tk w) ∧
  dom (windows (tk (dispatch e w))) ⊆ dom (windows (tk w)).
Proof.
  intros Hd. destruct e as [| | |g|id g|opts]; simpl.
  - unfold enter. destruct (schedule_frame w) as (-> & -> & _). done.
  - rewrite leave_eq. simpl. split; [done|].
    destruct (_tipwindow (self w)); [|done].
    rewrite dom_delete_L. apply subseteq_difference_l. done.
  - rewrite leave_eq. simpl. split; [done|].
    destruct (_tipwindow (self w)); [|done].
    rewrite dom_delete_L. apply subseteq_difference_l. done.
  - destruct (_id4 (self w)); [|done].
    destruct (motion_frame g w) as (_ & _ & _ & -> & ->). done.
  - destruct (timers (tk w) !! id); [|done].
    rewrite show_disabled by (rewrite is_disabled_expire; auto).
    rewrite unschedule_eq. simpl.
    destruct (_id (self w)); done.
  - rewrite lift_configure. done.
Qed.

Lemma run_creates_nothing (es : list event) (w : world) :
  disabled_at_shows es w →
  next_window (tk (run es w)) = next_window (tk w) ∧
  dom (windows (tk (run es w))) ⊆ dom (windows (tk w)).
Proof.
  revert w. induction es as [|e es IH]; intros w Hes; simpl; [done|].
  destruct Hes as [He Hes].
  destruct (IH _ Hes) as [Hnw Hsub].
  destruct (dispatch_creates_nothing e w He) as [Hnw' Hsub'].
  split; [congruence | by transitivity (dom (windows (tk (dispatch e w))))].
Qed.

Lemma enter_disabled (w : world) :
  inv w → is_disabled w = true →
  _id (self (dispatch Enter w)) = None ∧
  timers (tk (dispatch Enter w)) = ∅ ∧
  next_timer (tk (dispatch Enter w)) = next_timer (tk w) ∧
  _tipwindow (self (dispatch Enter w)) = _tipwindow (self w) ∧
  windows (tk (dispatch Enter w)) = windows (tk w).
Proof.
  intros [Ht _] Hd. simpl. unfold enter.
  destruct (schedule_timers w Ht) as (Hws & _ & Htw & _ & Hs).
  assert (due_delay w = None) as Hdue.
  { unfold due_delay, is_disabled in *.
    destruct (_opts (self w) !! "state"); [by rewrite Hd | done]. }
  rewrite Hdue in Hs. destruct Hs as (? & ? & ?). done.
Qed.

Lemma timer_disabled (id : nat) (g : geometry) (w : world) :
  inv w → is_disabled w = true → is_Some (timers (tk w) !! id) →
  _id (self (dispatch (Timer id g) w)) = None ∧
  timers (tk (dispatch (Timer id g) w)) = ∅ ∧
  _tipwindow (self (dispatch (Timer id g) w)) = _tipwindow (self w) ∧
  windows (tk (dispatch (Timer id g) w)) = windows (tk w) ∧
  next_window (tk (dispatch (Timer id g) w)) = next_window (tk w).
Proof.
  intros [Ht _] Hd Hid. simpl. destruct Hid as [ms Hid]. rewrite Hid.
  destruct (expire_recorded id w Ht (mk_is_Some _ _ Hid))
    as (Hs & Hrec & Hts & Hws & Hnw & _).
  rewrite show_disabled by done. rewrite unschedule_eq. simpl.
  rewrite Hrec. simpl. rewrite delete_delete_eq.
  simpl in Hts. by repeat split.
Qed.

Lemma disabled_at_shows_app (es1 es2 : list event) (w : world) :
  disabled_at_shows (es1 ++ es2)%list w →
  disabled_at_shows es1 w ∧ disabled_at_shows es2 (run es1 w).
Proof.
  revert w. induction es1 as [|e es1 IH]; intros w; simpl; [done|].
  intros [He Hes]. destruct (IH _ Hes) as [H1 H2]. done.
Qed.

(** After an event that empties [_id], leaves no timer and keeps the popup
    handle and the windows, the tooltip is idle exactly when it had no
    popup. *)
Lemma idle_iff_no_popup (w1 w2 : world) :
  inv w1 →
  _id (self w2) = None → timers (tk w2) = ∅ →
  _tipwindow (self w2) = _tipwindow (self w1) →
  windows (tk w2) = windows (tk w1) →
  idle w2 ↔ _tipwindow (self w1) = None.
Proof.
  intros [_ Hw] Hid Hts Htw Hws. unfold idle. split.
  - intros (_ & Hnone & _). by rewrite <- Htw.
  - intros Hnone. rewrite Hid, Hts, Htw, Hws, Hnone.
    pose proof (destroy_recorded_window w1 Hw) as He. rewrite Hnone in He.
    by rewrite He.
Qed.

(** C5, as amended.  From any state [w] the tooltip can be in, along any
    events [es] during which the [state] option reads ['disabled'] whenever
    an [Enter] or [Timer] event is handled, no popup is created: the window
    counter does not move and no window appears.  At each [Enter] of the
    sequence no timer is left pending and [_id] is empty; at each expiry of
    a pending timer [_id] is emptied and no timer is left.  Both leave the
    popup handle and the windows as they were: a popup already shown stays,
    and the tooltip is idle afterwards exactly when it had no popup. *)
Theorem no_popup_while_disabled (t : ToolTip) (es0 es : list event) :
  let w := run es0 (start t) in
  disabled_at_shows es w →
  next_window (tk (run es w)) = next_window (tk w) ∧
  dom (windows (tk (run es w))) ⊆ dom (windows (tk w)) ∧
  ∀ (es1 : list event) (e : event) (es2 : list event),
    es = (es1 ++ e :: es2)%list →
    let w1 := run es1 w in
    let w2 := dispatch e w1 in
    (e = Enter →
     _id (self w2) = None ∧ timers (tk w2) = ∅ ∧
     next_timer (tk w2) = next_timer (tk w1) ∧
     _tipwindow (self w2) = _tipwindow (self w1) ∧
     windows (tk w2) = windows (tk w1) ∧
     (idle w2 ↔ _tipwindow (self w1) = None)) ∧
    (∀ id g, e = Timer id g → is_Some (timers (tk w1) !! id) →
     _id (self w2) = None ∧ timers (tk w2) = ∅ ∧
     _tipwindow (self w2) = _tipwindow (self w1) ∧
     windows (tk w2) = windows (tk w1) ∧
     next_window (tk w2) = next_window (tk w1) ∧
     (idle w2 ↔ _tipwindow (self w1) = None)).
Proof.
  intros w Hes.
  destruct (run_creates_nothing es w Hes) as [Hnw Hdom].
  split; [done|]. split; [done|].
  intros es1 e es2 -> w1 w2.
  apply disabled_at_shows_app in Hes as [_ [He _]]. fold w1 in He.
  assert (inv w1) as Hinv.
  { unfold w1, w. rewrite <- run_app. apply inv_reachable. }
  split.
  - intros ->. unfold w2.
    destruct (enter_disabled w1 Hinv (He eq_refl)) as (Hid & Hts & Hnt & Htw & Hws).
    repeat split; try done; by apply (idle_iff_no_popup w1).
  - intros id g -> Hid. unfold w2.
    destruct (timer_disabled id g w1 Hinv (He eq_refl) Hid)
      as (Hid' & Hts & Htw & Hws & Hnw').
    repeat split; try done; by apply (idle_iff_no_popup w1).
Qed.

Lemma no_popup_while_disabled_witness :
  let w := run [Enter] (start (tooltip_of [])) in
  let es := [Configure [("state", PStr "disabled")];
             Timer 0 scenario_geometry; Enter; Leave] in
  next_window (tk (run es w)) = next_window (tk w) ∧
  dom (windows (tk (run es w))) ⊆ dom (windows (tk w)).
Proof.
  intros w es.
  destruct (no_popup_while_disabled (tooltip_of []) [Enter] es) as (H1 & H2 & _).
  - unfold es. cbn [disabled_at_shows].
    repeat split;
      first [ intros _; vm_compute; reflexivity
            | intros H; vm_compute in H; discriminate H ].
  - split; [exact H1 | exact H2].
Defined.

(** C5 as stated fails: with the popup shown, the second timer pending and
    the tooltip disabled, the [state] option reads ['disabled'] at the
    expiry of that timer and at the [Enter] after it, no popup is created,
    but neither event leaves the tooltip idle: the popup handle still names
    the window, which is still on screen. *)
Lemma no_popup_while_disabled_counterexample :
  disabled_at_shows [Timer 1 scenario_geometry; Enter] disabled_with_popup ∧
  is_Some (timers (tk disabled_with_popup) !! 1%nat) ∧
  ¬ idle (run [Timer 1 scenario_geometry] disabled_with_popup) ∧
  ¬ idle (run [Timer 1 scenario_geometry; Enter] disabled_with_popup) ∧
  _tipwindow (self (run [Timer 1 scenario_geometry] disabled_with_popup)) =
    Some 0%nat ∧
  (withdrawn <$>
     windows (tk (run [Timer 1 scenario_geometry] disabled_with_popup))
       !! 0%nat) = Some false.
Proof.
  split.
  { cbn [disabled_at_shows].
    repeat split; intros _; vm_compute; reflexivity. }
  split; [exists (PInt 1500); vm_compute; reflexivity|].
  split; [intros (_ & Htw & _); vm_compute in Htw; discriminate Htw|].
  split; [intros (_ & Htw & _); vm_compute in Htw; discriminate Htw|].
  split; vm_compute; reflexivity.
Qed.

(** ** One timer at a time *)

Lemma fresh_inv_empty (w : world) : timers (tk w) = ∅ → fresh_inv w.
Proof. intros He id ms. by rewrite He, lookup_empty. Qed.

Lemma show_timers (g : geometry) (w : world) :
  timers (tk w) = ∅ → timers (tk (fst (_show g w))) = ∅.
Proof.
  intros He. destruct (is_disabled w) eqn:Hd.
  - rewrite show_disabled by done. rewrite unschedule_eq. simpl.
    destruct (_id (self w)); simpl; rewrite He; [apply delete_empty | done].
  - destruct (_tipwindow (self w)) as [tw|] eqn:Htw.
    + by erewrite show_visible.
    + by destruct (show_hidden g w Hd Htw) as [->|[tl ->]].
Qed.

Lemma fresh_inv_dispatch (e : event) (w : world) :
  inv w → fresh_inv w → fresh_inv (dispatch e w).
Proof.
  intros Hinv Hf. destruct e as [| | |g|id g|opts]; simpl.
  - unfold enter. destruct Hinv as [Ht _].
    destruct (schedule_timers w Ht) as (_ & _ & _ & _ & Hs).
    destruct (due_delay w) as [ms|].
    + destruct Hs as (_ & Hts & Hnt). intros id ms'. rewrite Hts, Hnt.
      intros [<- _]%lookup_singleton_Some. lia.
    + destruct Hs as (_ & Hts & _). by apply fresh_inv_empty.
  - apply fresh_inv_empty. rewrite leave_eq. simpl.
    apply cancel_recorded_timer, Hinv.
  - apply fresh_inv_empty. rewrite leave_eq. simpl.
    apply cancel_recorded_timer, Hinv.
  - destruct (_id4 (self w)); [|done].
    destruct (motion_frame g w) as (_ & Hts & Hnt & _).
    intros id ms. rewrite Hts, Hnt. apply Hf.
  - destruct (timers (tk w) !! id) eqn:Hid; [|done].
    apply fresh_inv_empty, show_timers.
    destruct Hinv as [Ht _].
    by destruct (expire_recorded id w Ht (mk_is_Some _ _ Hid)) as (_ & _ & ? & _).
  - rewrite lift_configure. exact Hf.
Qed.

Lemma fresh_inv_reachable (t : ToolTip) (es : list event) :
  fresh_inv (run es (start t)).
Proof.
  induction es as [|e es IH] using rev_ind.
  - by apply fresh_inv_empty.
  - rewrite run_app. simpl. apply fresh_inv_dispatch; [apply inv_reachable | done].
Qed.

(** C6.  In every state [w] the tooltip can be in there is at most one
    pending timer.  [Enter] leaves exactly the newly scheduled timer (or
    none, when the tooltip is disabled), and a timer that was pending before
    is no longer; [Leave] and [ButtonPress], which hide the popup, leave no
    timer. *)
Theorem at_most_one_timer (t : ToolTip) (es : list event) :
  let w := run es (start t) in
  (size (timers (tk w)) ≤ 1)%nat ∧
  timers (tk (dispatch Enter w)) =
    match due_delay w with
    | Some ms => {[ next_timer (tk w) := ms ]}
    | None => ∅
    end ∧
  (∀ id, is_Some (timers (tk w) !! id) →
         timers (tk (dispatch Enter w)) !! id = None) ∧
  timers (tk (dispatch Leave w)) = ∅ ∧
  timers (tk (dispatch ButtonPress w)) = ∅.
Proof.
  intros w.
  pose proof (inv_reachable t es) as Hinv. fold w in Hinv.
  pose proof (fresh_inv_reachable t es) as Hf. fold w in Hf.
  destruct Hinv as [Ht Hw].
  destruct (schedule_timers w Ht) as (_ & _ & _ & _ & Hs).
  assert (timers (tk (dispatch Enter w)) =
          match due_delay w with
          | Some ms => {[ next_timer (tk w) := ms ]}
          | None => ∅
          end) as Henter.
  { simpl. unfold enter. destruct (due_delay w); by destruct Hs as (_ & ? & _). }
  split; [by apply timer_inv_size|]. split; [exact Henter|].
  split; [|split].
  - intros id [ms Hid]. rewrite Henter. apply Hf in Hid.
    destruct (due_delay w); [|apply lookup_empty].
    apply lookup_singleton_ne. lia.
  - simpl. rewrite leave_eq. simpl. by apply cancel_recorded_timer.
  - simpl. rewrite leave_eq. simpl. by apply cancel_recorded_timer.
Qed.

Lemma at_most_one_timer_witness :
  let w := run [Enter] (start (tooltip_of [])) in
  timers (tk w) !! 0%nat = Some (PInt 1500) ∧
  timers (tk (dispatch Enter w)) !! 0%nat = None ∧
  timers (tk (dispatch Enter w)) !! 1%nat = Some (PInt 1500).
Proof.
  intros w.
  destruct (at_most_one_timer (tooltip_of []) [Enter]) as (_ & _ & Hold & _).
  split; [vm_compute; reflexivity|]. split.
  - apply Hold. exists (PInt 1500). vm_compute. reflexivity.
  - vm_compute. reflexivity.
Defined.

(** ** Leaving *)

(** C7.  In any state, [Leave] and identically [ButtonPress] empty both
    [_id] and [_tipwindow], cancel the recorded timer and destroy the
    recorded popup; in every state the tooltip can be in, no timer and no
    popup are left afterwards. *)
Theorem leave_restores_idle (w0 : world) (t : ToolTip) (es : list event) :
  (_id (self (dispatch Leave w0)) = None ∧
   _tipwindow (self (dispatch Leave w0)) = None ∧
   timers (tk (dispatch Leave w0)) =
     match _id (self w0) with
     | Some id => delete id (timers (tk w0))
     | None => timers (tk w0)
     end ∧
   windows (tk (dispatch Leave w0)) =
     match _tipwindow (self w0) with
     | Some tw => delete tw (windows (tk w0))
     | None => windows (tk w0)
     end ∧
   dispatch ButtonPress w0 = dispatch Leave w0) ∧
  (let w := run es (start t) in
   timers (tk (dispatch Leave w)) = ∅ ∧ windows (tk (dispatch Leave w)) = ∅).
Proof.
  split.
  - simpl. rewrite leave_eq. simpl. by repeat split.
  - intros w. destruct (inv_reachable t es) as [Ht Hw]. fold w in Ht, Hw.
    simpl. rewrite leave_eq. simpl. split.
    + by apply cancel_recorded_timer.
    + by apply destroy_recorded_window.
Qed.

(** ** The follow-mouse flag *)

Lemma show_flag (g : geometry) (w : world) :
  _follow_mouse (self (fst (_show g w))) = _follow_mouse (self w) ∧
  _id4 (self (fst (_show g w))) = _id4 (self w).
Proof.
  destruct (is_disabled w) eqn:Hd.
  - rewrite show_disabled by done. by rewrite unschedule_eq.
  - destruct (_tipwindow (self w)) as [tw|] eqn:Htw.
    + by erewrite show_visible.
    + by destruct (show_hidden g w Hd Htw) as [->|[tl ->]].
Qed.

Lemma dispatch_flag (e : event) (w : world) :
  _follow_mouse (self (dispatch e w)) = _follow_mouse (self w) ∧
  _id4 (self (dispatch e w)) = _id4 (self w).
Proof.
  destruct e as [| | |g|id g|opts]; simpl.
  - unfold enter. destruct (schedule_frame w) as (_ & _ & Hs).
    split; [apply (f_equal _follow_mouse) in Hs | apply (f_equal _id4) in Hs];
      exact Hs.
  - by rewrite leave_eq.
  - by rewrite leave_eq.
  - destruct (_id4 (self w)) eqn:H4; [|done].
    destruct (motion_frame g w) as (-> & _). done.
  - destruct (timers (tk w) !! id); [|done]. apply (show_flag g (expire id w)).
  - rewrite lift_configure. simpl.
    by destruct (configure_frame opts (self w)) as (_ & _ & -> & ->).
Qed.

Lemma run_flag (es : list event) (w : world) :
  _follow_mouse (self (run es w)) = _follow_mouse (self w) ∧
  _id4 (self (run es w)) = _id4 (self w).
Proof.
  revert w. induction es as [|e es IH]; intros w; simpl; [done|].
  destruct (IH (dispatch e w)) as [H1 H2].
  destruct (dispatch_flag e w) as [H3 H4]. split; congruence.
Qed.

Lemma run_configure (calls : list kwargs) (w : world) :
  tk (run (map Configure calls) w) = tk w ∧
  _tipwindow (self (run (map Configure calls) w)) = _tipwindow (self w).
Proof.
  revert w. induction calls as [|c calls IH]; intros w; simpl; [done|].
  destruct (IH (fst (lift (configure c) w))) as [H1 H2].
  rewrite H1, H2, lift_configure. simpl.
  by destruct (configure_frame c (self w)) as (-> & _).
Qed.

(** [coords] and [motion] read the popup handle and the flag, and nothing
    else of the object. *)
Lemma coords_depends (g : geometry) (w1 w2 : world) :
  _tipwindow (self w1) = _tipwindow (self w2) →
  _follow_mouse (self w1) = _follow_mouse (self w2) →
  snd (coords g w1) = snd (coords g w2).
Proof.
  destruct w1 as [[o1 tw1 i1 b1 fm1] k1], w2 as [[o2 tw2 i2 b2 fm2] k2].
  simpl. intros -> ->. unfold coords. unfold_m. by destruct tw2.
Qed.

Lemma motion_depends (g : geometry) (w1 w2 : world) :
  _tipwindow (self w1) = _tipwindow (self w2) →
  _follow_mouse (self w1) = _follow_mouse (self w2) →
  tk w1 = tk w2 →
  tk (fst (motion g w1)) = tk (fst (motion g w2)).
Proof.
  destruct w1 as [[o1 tw1 i1 b1 fm1] k1], w2 as [[o2 tw2 i2 b2 fm2] k2].
  simpl. intros -> -> ->.
  unfold motion, coords, wm_geometry, alter_window. unfold_m.
  destruct tw2; simpl; [|done]. by destruct (negb (fm2 =? 0)).
Qed.

(** C9.  No event changes [_follow_mouse] (nor the [<Motion>] binding), so
    the flag read by [motion] and [coords] keeps the value [__init__] gave
    it; after any [configure] calls, also ones that set the [follow_mouse]
    option, [coords] returns what it returned before and [motion] leaves the
    toolkit as it would have before. *)
Theorem follow_mouse_fixed (w : world) (es : list event)
    (calls : list kwargs) (g : geometry) :
  _follow_mouse (self (run es w)) = _follow_mouse (self w) ∧
  _id4 (self (run es w)) = _id4 (self w) ∧
  snd (coords g (run (map Configure calls) w)) = snd (coords g w) ∧
  tk (fst (motion g (run (map Configure calls) w))) = tk (fst (motion g w)).
Proof.
  destruct (run_flag es w) as [Hfm H4].
  split; [exact Hfm|]. split; [exact H4|].
  destruct (run_flag (map Configure calls) w) as [Hfm' _].
  destruct (run_configure calls w) as [Htk Htw].
  split.
  - by apply coords_depends.
  - by apply motion_depends.
Qed.

(** A call that returns an object has bound its arguments and run
    [__init__] to its end. *)
Lemma ToolTip_new_init (args : list pyval) (kw : kwargs) (t : ToolTip) :
  ToolTip_new args kw = Ret t →
  ∃ a, bind_arguments args kw = Ret a ∧
       ToolTip_init (arg_text a) (arg_delay a) (arg_opts a) = Ret t.
Proof.
  unfold ToolTip_new. destruct (bind_arguments args kw) as [a|e]; [|done].
  intros Hinit. by exists a.
Qed.

Lemma init_flag_bound (text delay : pyval) (opts : kwargs) (t : ToolTip) :
  ToolTip_init text delay opts = Ret t →
  ∃ v, _opts t !! "follow_mouse" = Some v ∧
       _follow_mouse t = (if truthy v then 1 else 0) ∧
       _id4 t = (if truthy v then Some "<Motion>" else None) ∧
       _tipwindow t = None ∧ _id t = None.
Proof.
  unfold ToolTip_init, __init__, bind, modify, opt, ret. simpl.
  destruct (configure opts _) as [t' [r|e]] eqn:Hc; simpl; [|done].
  pose proof (configure_frame opts
    (set_opts (default_opts text delay) (mkToolTip ∅ None None None 0))) as Hfr.
  rewrite Hc in Hfr. simpl in Hfr. destruct Hfr as (_ & _ & H4 & _).
  destruct (_opts t' !! "follow_mouse") as [v|] eqn:Hv; simpl; [|done].
  destruct (truthy v) eqn:Htr; simpl; intros [= <-]; exists v; simpl;
    rewrite ?Htr; by repeat split.
Qed.

(** X6.  When a call of the constructor returns a tooltip, [_follow_mouse]
    is 1 and [<Motion>] is bound exactly when the [follow_mouse] option, as
    the keywords left it, is true in Python's sense (an empty tuple or a 0
    is not); otherwise the flag is 0 and [<Motion>] is not bound.  Either
    way there is no popup and no timer. *)
Theorem init_flag (args : list pyval) (kw : kwargs) (t : ToolTip) :
  ToolTip_new args kw = Ret t →
  ∃ v, _opts t !! "follow_mouse" = Some v ∧
       _follow_mouse t = (if truthy v then 1 else 0) ∧
       _id4 t = (if truthy v then Some "<Motion>" else None) ∧
       _tipwindow t = None ∧ _id t = None.
Proof.
  intros (a & _ & Hinit)%ToolTip_new_init. by eapply init_flag_bound.
Qed.

(** [ToolTip(master, follow_mouse=())]: the empty tuple is false, so the
    flag stays 0 and [<Motion>] is not bound. *)
Example follow_mouse_empty_tuple :
  ∃ t, ToolTip_new [PObj 0 true] [("follow_mouse", PObj 1 false)] = Ret t ∧
       _follow_mouse t = 0 ∧ _id4 t = None.
Proof. eexists. vm_compute. by repeat split. Qed.

(** A tooltip built without [follow_mouse] and then configured with
    [follow_mouse=1]: the option changes, the flag does not. *)
Example configure_follow_mouse_late :
  let w := run [Configure [("follow_mouse", PInt 1)]] (start (tooltip_of [])) in
  _opts (self w) !! "follow_mouse" = Some (PInt 1) ∧
  _follow_mouse (self w) = 0 ∧ _id4 (self w) = None.
Proof. vm_compute. by repeat split. Qed.

(** ** One popup at a time *)

(** C10, as amended.  When [_show] runs with a popup already there, no
    window is created, moved or redrawn and the popup handle stays; unless
    the tooltip is disabled nothing changes at all, and if it is disabled
    the change is that of [_unschedule] ([_id] is emptied and that timer
    cancelled).  In every state the tooltip can be in there is at most one
    popup. *)
Theorem show_with_popup (w : world) (g : geometry) (tw : nat) :
  _tipwindow (self w) = Some tw →
  let w' := fst (_show g w) in
  windows (tk w') = windows (tk w) ∧
  next_window (tk w') = next_window (tk w) ∧
  _tipwindow (self w') = Some tw ∧
  (is_disabled w = false → w' = w) ∧
  (is_disabled w = true → w' = fst (_unschedule w)) ∧
  ∀ (t : ToolTip) (es : list event),
    (size (windows (tk (run es (start t)))) ≤ 1)%nat.
Proof.
  intros Htw w'.
  assert (∀ (t : ToolTip) (es : list event),
            (size (windows (tk (run es (start t)))) ≤ 1)%nat) as Hone.
  { intros t es. apply window_inv_size, inv_reachable. }
  unfold w'. destruct (is_disabled w) eqn:Hd.
  - rewrite show_disabled by done. rewrite unschedule_eq. simpl.
    destruct (_id (self w)); by repeat split.
  - rewrite (show_visible g w tw Hd Htw). by repeat split.
Qed.

Lemma show_with_popup_witness :
  let w := shown_then_disabled in
  let w' := fst (_show scenario_geometry w) in
  windows (tk w') = windows (tk w) ∧
  next_window (tk w') = next_window (tk w) ∧
  _tipwindow (self w') = Some 0%nat.
Proof.
  intros w w'.
  destruct (show_with_popup shown_then_disabled scenario_geometry 0%nat)
    as (H1 & H2 & H3 & _).
  - vm_compute. reflexivity.
  - split; [exact H1|]. split; [exact H2 | exact H3].
Defined.

(** C10 as stated fails: with a popup shown, a second timer expiring after
    the tooltip was disabled makes [_show] empty [_id], so the state of the
    controller is not left unchanged. *)
Lemma show_with_popup_counterexample :
  _tipwindow (self shown_then_disabled) = Some 0%nat ∧
  _id (self shown_then_disabled) = Some 1%nat ∧
  _id (self (fst (_show scenario_geometry shown_then_disabled))) = None ∧
  fst (_show scenario_geometry shown_then_disabled) ≠ shown_then_disabled.
Proof.
  split; [vm_compute; reflexivity|]. split; [vm_compute; reflexivity|].
  split; [vm_compute; reflexivity|].
  intros Heq. apply (f_equal (λ w, _id (self w))) in Heq.
  vm_compute in Heq. discriminate Heq.
Qed.

(** * Further properties of the code *)

(** ** [configure] *)

Lemma has_key_dom (d : gmap string pyval) (key : string) :
  has_key d key = true ↔ key ∈ dom d.
Proof.
  unfold has_key. rewrite elem_of_dom.
  destruct (d !! key); split; intros H; try done; by destruct H.
Qed.

Lemma has_key_insert (d : gmap string pyval) (key key' : string) (v : pyval) :
  has_key d key = true → has_key (<[key:=v]> d) key' = has_key d key'.
Proof.
  unfold has_key. intros Hk. destruct (decide (key = key')) as [<-|Hne].
  - rewrite lookup_insert_eq. by destruct (d !! key).
  - by rewrite lookup_insert_ne.
Qed.

Lemma store_all_notin (opts : kwargs) (d : gmap string pyval) (key : string) :
  key ∉ opts.*1 → store_all opts d !! key = d !! key.
Proof.
  revert d. induction opts as [|[k v] rest IH]; intros d Hk; [done|].
  apply not_elem_of_cons in Hk as [Hne Hk]. simpl in *.
  unfold store_all in *. simpl. rewrite IH by done. by rewrite lookup_insert_ne.
Qed.

Lemma store_all_in (opts : kwargs) (d : gmap string pyval) (key : string)
    (v : pyval) :
  NoDup opts.*1 → (key, v) ∈ opts → store_all opts d !! key = Some v.
Proof.
  revert d. induction opts as [|[k v'] rest IH]; intros d Hnd Hin.
  - by apply elem_of_nil in Hin.
  - simpl in Hnd. apply NoDup_cons in Hnd as [Hk Hnd].
    apply elem_of_cons in Hin as [[= -> ->]|Hin].
    + change (store_all rest (<[k:=v']> d) !! k = Some v').
      rewrite store_all_notin by done. apply lookup_insert_eq.
    + change (store_all rest (<[k:=v']> d) !! key = Some v). by apply IH.
Qed.

(** With recognized keys only, [configure] is the sequence of stores. *)
Lemma configure_store_all (opts : kwargs) (t : ToolTip) :
  Forall (λ kv, has_key (_opts t) (fst kv) = true) opts →
  configure opts t = (set_opts (store_all opts (_opts t)) t, Ret None).
Proof.
  revert t. induction opts as [|[key v] rest IH]; intros t Hall.
  - by destruct t.
  - inversion Hall as [|? ? Hkey Hrest]; subst. simpl in Hkey.
    simpl. unfold bind, gets, modify. simpl. rewrite Hkey. simpl.
    rewrite IH; [done|].
    eapply Forall_impl; [exact Hrest|]. intros [k' v'] Hk'. simpl in *.
    by rewrite has_key_insert.
Qed.

Lemma configure_dom (opts : kwargs) (t : ToolTip) :
  dom (_opts (fst (configure opts t))) = dom (_opts t).
Proof.
  revert t. induction opts as [|[key v] rest IH]; intros t; simpl; [done|].
  unfold bind, gets, modify, raise. simpl.
  destruct (has_key (_opts t) key) eqn:Hkey; simpl; [|done].
  specialize (IH (set_opts (<[key:=v]> (_opts t)) t)).
  destruct (configure rest _) as [t' [r|e]]; simpl in *; rewrite IH;
    apply dom_insert_lookup_L; unfold has_key in Hkey;
    by destruct (_opts t !! key).
Qed.

(** X1.  Called with recognized, pairwise distinct keys, [configure] raises
    nothing and returns [None]; afterwards every passed key holds the passed
    value, every other option holds what it held, the set of option names
    is the same, and no other attribute of the tooltip has changed. *)
Theorem configure_stores (opts : kwargs) (t : ToolTip) :
  Forall (λ kv, has_key (_opts t) (fst kv) = true) opts →
  NoDup opts.*1 →
  let t' := fst (configure opts t) in
  snd (configure opts t) = Ret None ∧
  (∀ key v, (key, v) ∈ opts → _opts t' !! key = Some v) ∧
  (∀ key, key ∉ opts.*1 → _opts t' !! key = _opts t !! key) ∧
  dom (_opts t') = dom (_opts t) ∧
  _tipwindow t' = _tipwindow t ∧ _id t' = _id t ∧
  _id4 t' = _id4 t ∧ _follow_mouse t' = _follow_mouse t.
Proof.
  intros Hall Hnd t'. unfold t'. rewrite configure_store_all by done. simpl.
  split; [done|]. split; [|split; [|split]].
  - intros key v Hin. by apply store_all_in.
  - intros key Hk. by apply store_all_notin.
  - pose proof (configure_dom opts t) as Hd.
    by rewrite configure_store_all in Hd.
  - done.
Qed.

Lemma configure_stores_witness :
  let t' := fst (configure [("bg", PStr "white"); ("delay", PInt 200)]
                   (tooltip_of [])) in
  _opts t' !! "bg" = Some (PStr "white") ∧
  _opts t' !! "delay" = Some (PInt 200) ∧
  _opts t' !! "fg" = Some (PStr "black").
Proof.
  intros t'.
  destruct (configure_stores [("bg", PStr "white"); ("delay", PInt 200)]
              (tooltip_of [])) as (_ & Hin & Hout & _).
  - repeat constructor.
  - apply (bool_decide_unpack _). vm_compute. exact I.
  - split; [|split].
    + apply Hin. apply elem_of_cons. by left.
    + apply Hin. apply elem_of_cons. right. apply elem_of_cons. by left.
    + unfold t'. rewrite Hout; [vm_compute; reflexivity|].
      apply (bool_decide_unpack _). vm_compute. exact I.
Defined.



(** X3.  Whatever it is called with, and whether it fails or not,
    [configure] neither adds nor removes an option name. *)
Theorem configure_keeps_names (opts : kwargs) (t : ToolTip) :
  dom (_opts (fst (configure opts t))) = dom (_opts t).
Proof. apply configure_dom. Qed.

(** ** The constructor *)

Lemma default_opts_dom (text delay : pyval) :
  dom (default_opts text delay) = option_names.
Proof. unfold default_opts. by rewrite dom_list_to_map_L. Qed.

Lemma configure_raises (opts : kwargs) (t : ToolTip) :
  Exists (λ kv, has_key (_opts t) (fst kv) = false) opts →
  snd (configure opts t) =
  Raise (TypeError "exceptions must derive from BaseException").
Proof.
  revert t. induction opts as [|[key v] rest IH]; intros t Hex.
  - by apply Exists_nil in Hex.
  - simpl. unfold bind, gets, modify, raise. simpl.
    destruct (has_key (_opts t) key) eqn:Hkey; simpl; [|done].
    apply Exists_cons in Hex as [Hhd|Htl]; [simpl in Hhd; congruence|].
    specialize (IH (set_opts (<[key:=v]> (_opts t)) t)).
    destruct (configure rest _) as [t' [r|e]]; simpl in *; apply IH;
      (eapply Exists_impl; [exact Htl|]); intros [k' v'] Hk'; simpl in *;
      by rewrite has_key_insert.
Qed.

Lemma in_option_names (d : gmap string pyval) (key : string) :
  dom d = option_names → key ∈ option_names → has_key d key = true.
Proof. intros Hd Hk. apply has_key_dom. by rewrite Hd. Qed.

Lemma follow_mouse_name : "follow_mouse" ∈ option_names.
Proof. apply (bool_decide_unpack _). vm_compute. exact I. Qed.

Lemma state_name : "state" ∈ option_names.
Proof. apply (bool_decide_unpack _). vm_compute. exact I. Qed.

Lemma delay_name : "delay" ∈ option_names.
Proof. apply (bool_decide_unpack _). vm_compute. exact I. Qed.


Lemma init_keys (text delay : pyval) (opts : kwargs) (t : ToolTip) :
  ToolTip_init text delay opts = Ret t →
  dom (_opts t) = option_names ∧ _tipwindow t = None ∧ _id t = None.
Proof.
  unfold ToolTip_init, __init__, bind, modify, opt, ret. simpl.
  set (t0 := set_opts (default_opts text delay) (mkToolTip ∅ None None None 0)).
  pose proof (configure_dom opts t0) as Hd.
  destruct (configure opts t0) as [t' [r|e]] eqn:Hc; simpl in *; [|done].
  rewrite default_opts_dom in Hd.
  destruct (_opts t' !! "follow_mouse") as [v|]; simpl; [|done].
  destruct (truthy v); simpl; intros [= <-]; by simpl.
Qed.

Lemma bind_arguments_ret (args : list pyval) (kw : kwargs) (a : arguments) :
  bind_arguments args kw = Ret a →
  arg_text a =
    default default_text (argument (args !! 1%nat) (keyword "text" kw)) ∧
  arg_delay a =
    default default_delay (argument (args !! 2%nat) (keyword "delay" kw)) ∧
  arg_opts a = filter (λ kv, fst kv ∉ parameters) kw.
Proof.
  unfold bind_arguments.
  destruct (first_collision _ kw); [done|].
  destruct (Nat.ltb 3 (length args)); [done|].
  destruct (argument (args !! 0%nat) (keyword "master" kw)); [|done].
  by intros [= <-].
Qed.



(** X5.  When a call of the constructor binds its arguments and some
    keyword names neither a parameter nor an option, the call fails with
    the [TypeError] raised inside [configure], and no tooltip is built. *)
Theorem constructor_rejects (args : list pyval) (kw : kwargs) (a : arguments) :
  bind_arguments args kw = Ret a →
  Exists (λ kv, (fst kv ∉ parameters) ∧ (fst kv ∉ option_names)) kw →
  ToolTip_new args kw =
  Raise (TypeError "exceptions must derive from BaseException").
Proof.
  intros Hbind Hex.
  destruct (bind_arguments_ret args kw a Hbind) as (_ & _ & Hopts).
  unfold ToolTip_new. rewrite Hbind.
  set (text := arg_text a). set (delay := arg_delay a).
  assert (Exists (λ kv, fst kv ∉ option_names) (arg_opts a)) as Hex0.
  { rewrite Hopts. apply Exists_exists in Hex as (kv & Hin & Hpar & Hopt).
    apply Exists_exists. exists kv. split; [|done].
    by apply list_elem_of_filter. }
  set (t0 := set_opts (default_opts text delay) (mkToolTip ∅ None None None 0)).
  assert (Exists (λ kv, has_key (_opts t0) (fst kv) = false) (arg_opts a))
    as Hex'.
  { eapply Exists_impl; [exact Hex0|]. intros [k v] Hk. simpl in *.
    destruct (has_key (default_opts text delay) k) eqn:Hkey; [|done].
    apply has_key_dom in Hkey. by rewrite default_opts_dom in Hkey. }
  pose proof (configure_raises (arg_opts a) t0 Hex') as Hc.
  unfold ToolTip_init, __init__, bind, modify. simpl. fold t0.
  destruct (configure (arg_opts a) t0) as [t' [r|e]]; simpl in *; [done|].
  by injection Hc as ->.
Qed.

Lemma constructor_rejects_witness :
  ToolTip_new [PObj 0 true]
    [("bg", PStr "white"); ("background", PStr "white")] =
  Raise (TypeError "exceptions must derive from BaseException").
Proof.
  apply (constructor_rejects [PObj 0 true]
           [("bg", PStr "white"); ("background", PStr "white")]
           (mkArguments (PObj 0 true) default_text default_delay
              [("bg", PStr "white"); ("background", PStr "white")])).
  - vm_compute. reflexivity.
  - apply Exists_cons. right. apply Exists_cons. left. simpl.
    split; intros Hin; apply (bool_decide_pack _) in Hin;
      vm_compute in Hin; exact Hin.
Defined.

Lemma init_flag_witness :
  ∃ v, _opts (tooltip_of [("follow_mouse", PInt 1)]) !! "follow_mouse" = Some v ∧
       _follow_mouse (tooltip_of [("follow_mouse", PInt 1)]) =
         (if truthy v then 1 else 0) ∧
       _id4 (tooltip_of [("follow_mouse", PInt 1)]) =
         (if truthy v then Some "<Motion>" else None) ∧
       _tipwindow (tooltip_of [("follow_mouse", PInt 1)]) = None ∧
       _id (tooltip_of [("follow_mouse", PInt 1)]) = None.
Proof.
  apply (init_flag [PObj 0 true] [("follow_mouse", PInt 1)]).
  vm_compute. reflexivity.
Defined.

(** ** The handlers on a constructed tooltip *)

Lemma show_opts (g : geometry) (w : world) :
  _opts (self (fst (_show g w))) = _opts (self w).
Proof.
  destruct (is_disabled w) eqn:Hd.
  - rewrite show_disabled by done. by rewrite unschedule_eq.
  - destruct (_tipwindow (self w)) as [tw|] eqn:Htw.
    + by erewrite show_visible.
    + by destruct (show_hidden g w Hd Htw) as [->|[tl ->]].
Qed.

Lemma dispatch_dom (e : event) (w : world) :
  dom (_opts (self (dispatch e w))) = dom (_opts (self w)).
Proof.
  destruct e as [| | |g|id g|opts]; simpl.
  - unfold enter. destruct (schedule_frame w) as (_ & _ & Hs).
    apply (f_equal _opts) in Hs. simpl in Hs. by rewrite Hs.
  - by rewrite leave_eq.
  - by rewrite leave_eq.
  - destruct (_id4 (self w)); [|done].
    by destruct (motion_frame g w) as (-> & _).
  - destruct (timers (tk w) !! id); [|done].
    by rewrite (show_opts g (expire id w)).
  - rewrite lift_configure. apply configure_dom.
Qed.

Lemma run_dom (es : list event) (w : world) :
  dom (_opts (self (run es w))) = dom (_opts (self w)).
Proof.
  revert w. induction es as [|e es IH]; intros w; simpl; [done|].
  by rewrite IH, dispatch_dom.
Qed.

Lemma has_key_delete_ne (d : gmap string pyval) (key key' : string) :
  key ≠ key' → has_key (delete key d) key' = has_key d key'.
Proof. intros Hne. unfold has_key. by rewrite lookup_delete_ne. Qed.

(** With all option names present and no popup, an enabled [_show] runs to
    its end: one window, the next one, is created, filled with the label
    options, placed where [coords] says and put on screen. *)
Lemma show_creates (g : geometry) (w : world) :
  dom (_opts (self w)) = option_names →
  is_disabled w = false → _tipwindow (self w) = None →
  ∃ x y,
    snd (coords g (on_self (set_tipwindow (Some (next_window (tk w)))) w)) =
      Ret (x, y) ∧
    _show g w =
    (mkWorld (set_tipwindow (Some (next_window (tk w))) (self w))
       (mkTk (<[next_window (tk w) :=
                mkToplevel false true (String.eqb (windowingsystem g) "aqua")
                  (Some (label_opts (_opts (self w))))
                  (Some (format_d x, y))]> (windows (tk w)))
             (S (next_window (tk w))) (timers (tk w)) (next_timer (tk w))),
     Ret tt).
Proof.
  intros Hdom Hd Htw.
  pose proof (in_option_names _ _ Hdom state_name) as Hst.
  pose proof (in_option_names _ _ Hdom delay_name) as H1.
  pose proof (in_option_names _ _ Hdom follow_mouse_name) as H2.
  rewrite <- (has_key_delete_ne _ "delay") in H2 by done.
  pose proof Hst as H3.
  rewrite <- (has_key_delete_ne _ "delay"),
          <- (has_key_delete_ne _ "follow_mouse") in H3 by done.
  unfold is_disabled in Hd. unfold has_key in Hst.
  unfold _show, bind, lift, opt, gets, ret.
  destruct w as [[o tw i i4 fm] [ws nw ts nt]]; simpl in *. subst tw.
  destruct (o !! "state") as [st|]; [|done]. simpl.
  rewrite Hd. simpl.
  unfold create_contents, coords, del, withdraw, wm_overrideredirect,
    MacWindowStyle, pack_Label, wm_geometry, deiconify, alter_window.
  unfold new_Toplevel, set_windows, set_tipwindow, label_opts. unfold_m.
  destruct (String.eqb (windowingsystem g) "aqua"); simpl;
    rewrite H1; simpl; rewrite H2; simpl; rewrite H3; simpl;
    rewrite ?alter_insert_eq; eexists _, _; (split; reflexivity).
Qed.

Lemma handlers_return (g : geometry) (w : world) :
  dom (_opts (self w)) = option_names →
  snd (enter w) = Ret tt ∧ snd (leave w) = Ret tt ∧
  snd (motion g w) = Ret tt ∧ snd (_show g w) = Ret tt.
Proof.
  intros Hdom.
  pose proof (in_option_names _ _ Hdom state_name) as Hst.
  pose proof (in_option_names _ _ Hdom delay_name) as Hdl.
  unfold has_key in Hst, Hdl.
  split; [|split; [|split]].
  - unfold enter, _schedule, bind. rewrite unschedule_eq.
    unfold lift, opt, after, modify, on_self, ret. simpl.
    destruct w as [[o tw i i4 fm] [ws nw ts nt]]; simpl in *.
    destruct (o !! "state") as [st|]; [|done]. simpl.
    destruct (eq_disabled st); simpl; [done|].
    by destruct (o !! "delay").
  - by rewrite leave_eq.
  - destruct w as [[o tw i i4 fm] k].
    unfold motion, coords, wm_geometry, alter_window. unfold_m.
    destruct tw; simpl; [|done]. by destruct (negb (fm =? 0)).
  - destruct (is_disabled w) eqn:Hd.
    + rewrite show_disabled by done. by rewrite unschedule_eq.
    + destruct (_tipwindow (self w)) as [tw|] eqn:Htw.
      * unfold is_disabled in Hd.
        unfold _show, bind, lift, opt, gets, ret.
        destruct w as [[o tw' i i4 fm] k]; simpl in *. subst tw'.
        destruct (o !! "state") as [st|]; [|done]. simpl.
        by rewrite Hd.
      * by destruct (show_creates g w Hdom Hd Htw) as (x & y & _ & ->).
Qed.

(** X7.  On a tooltip the constructor has built, after any events, no
    handler ends in an exception: [enter], [leave], [motion] and the timer
    callback [_show] all return.  (Every option they look up is there, and
    [coords] is only reached with a popup.) *)
Theorem handlers_never_raise (text delay : pyval) (opts : kwargs)
    (t : ToolTip) (es : list event) (g : geometry) (id : nat) :
  ToolTip_init text delay opts = Ret t →
  let w := run es (start t) in
  snd (enter w) = Ret tt ∧ snd (leave w) = Ret tt ∧
  snd (motion g w) = Ret tt ∧ snd (_show g (expire id w)) = Ret tt.
Proof.
  intros Hnew w.
  destruct (init_keys _ _ _ _ Hnew) as (Hdom & _ & _).
  assert (dom (_opts (self w)) = option_names) as Hw
    by (unfold w; by rewrite run_dom).
  destruct (handlers_return g w Hw) as (He & Hl & Hm & _).
  destruct (handlers_return g (expire id w) Hw) as (_ & _ & _ & Hs).
  done.
Qed.

Lemma handlers_never_raise_witness :
  let w := run [Enter; Configure [("state", PStr "disabled")]]
             (start (tooltip_of [])) in
  snd (enter w) = Ret tt ∧ snd (leave w) = Ret tt ∧
  snd (motion scenario_geometry w) = Ret tt ∧
  snd (_show scenario_geometry (expire 0 w)) = Ret tt.
Proof.
  apply (handlers_never_raise default_text default_delay [] (tooltip_of [])
           [Enter; Configure [("state", PStr "disabled")]]
           scenario_geometry 0%nat).
  vm_compute. reflexivity.
Defined.

(** ** [motion] *)

Lemma motion_moves (g : geometry) (w : world) (tw : nat) :
  _tipwindow (self w) = Some tw →
  truthy (PInt (_follow_mouse (self w))) = true →
  ∃ x y, snd (coords g w) = Ret (x, y) ∧
    motion g w =
    (mkWorld (self w)
       (set_windows (alter (moved (format_d x, y)) tw (windows (tk w))) (tk w)),
     Ret tt).
Proof.
  destruct w as [[o tw' i i4 fm] k]. simpl. intros -> Hfm.
  unfold motion, coords, wm_geometry, alter_window. unfold_m.
  repeat first [rewrite Hfm | progress simpl].
  eexists _, _. split; reflexivity.
Qed.

Lemma motion_skip (g : geometry) (w : world) :
  _tipwindow (self w) = None ∨
  truthy (PInt (_follow_mouse (self w))) = false →
  motion g w = (w, Ret tt).
Proof.
  destruct w as [[o tw i i4 fm] k]. simpl. intros Hskip.
  unfold motion, coords, wm_geometry, alter_window. unfold_m.
  destruct tw as [tw|]; [|done].
  destruct Hskip as [Hn|Hf]; [done|].
  repeat first [rewrite Hf | progress simpl]. done.
Qed.

(** X8.  While the popup of a follow-mouse tooltip is shown, a pointer
    motion moves that window, and only it, to the position [coords] returns
    (each coordinate formatted with [%d]); the tooltip's attributes and
    timers are untouched. *)
Theorem motion_tracks_pointer (g : geometry) (w : world) (tw : nat)
    (b : string) :
  _tipwindow (self w) = Some tw →
  truthy (PInt (_follow_mouse (self w))) = true →
  _id4 (self w) = Some b →
  let w' := dispatch (Motion g) w in
  ∃ x y, snd (coords g w) = Ret (x, y) ∧
    windows (tk w') !! tw = moved (format_d x, y) <$> windows (tk w) !! tw ∧
    (∀ n, n ≠ tw → windows (tk w') !! n = windows (tk w) !! n) ∧
    self w' = self w ∧ timers (tk w') = timers (tk w) ∧
    next_window (tk w') = next_window (tk w).
Proof.
  intros Htw Hfm H4 w'. unfold w'. simpl. rewrite H4.
  destruct (motion_moves g w tw Htw Hfm) as (x & y & Hxy & ->).
  exists x, y. simpl. split; [done|]. split; [apply lookup_alter_eq|].
  split; [|done]. intros n Hn. by apply lookup_alter_ne.
Qed.

Lemma motion_tracks_pointer_witness :
  let w' := dispatch (Motion top_geometry) shown_follow in
  ∃ x y, snd (coords top_geometry shown_follow) = Ret (x, y) ∧
    windows (tk w') !! 0%nat =
      moved (format_d x, y) <$> windows (tk shown_follow) !! 0%nat.
Proof.
  intros w'.
  destruct (motion_tracks_pointer top_geometry shown_follow 0%nat "<Motion>")
    as (x & y & Hxy & Hw & _).
  - vm_compute. reflexivity.
  - vm_compute. reflexivity.
  - vm_compute. reflexivity.
  - exists x, y. split; [exact Hxy | exact Hw].
Defined.

Lemma dispatch_motion_anchored (e : event) (w : world) :
  truthy (PInt (_follow_mouse (self w))) = false →
  is_motion e = true → dispatch e w = w.
Proof.
  intros Hfm He. destruct e as [| | |g|id g|opts]; try done. simpl.
  destruct (_id4 (self w)); [|done]. rewrite motion_skip; auto.
Qed.

(** X9.  A tooltip whose [_follow_mouse] flag is 0 ignores pointer motion:
    any sequence of events leaves it and the toolkit as the same sequence
    with the [Motion] events removed does. *)
Theorem motion_ignored_when_anchored (es : list event) (w : world) :
  truthy (PInt (_follow_mouse (self w))) = false →
  run es w = run (filter (λ e, is_motion e = false) es) w.
Proof.
  revert w. induction es as [|e es IH]; intros w Hfm; [done|].
  destruct (is_motion e) eqn:He.
  - rewrite filter_cons_False by (rewrite He; done).
    simpl. rewrite dispatch_motion_anchored by done. by apply IH.
  - rewrite filter_cons_True by done. simpl. apply IH.
    destruct (dispatch_flag e w) as [-> _]. exact Hfm.
Qed.

Lemma motion_ignored_when_anchored_witness :
  run [Enter; Motion scenario_geometry; Timer 0 scenario_geometry;
       Motion top_geometry] (start (tooltip_of [])) =
  run (filter (λ e, is_motion e = false)
         [Enter; Motion scenario_geometry; Timer 0 scenario_geometry;
          Motion top_geometry]) (start (tooltip_of [])).
Proof.
  apply motion_ignored_when_anchored. vm_compute. reflexivity.
Defined.

(** ** The popup *)

Lemma shown_inv_dispatch (e : event) (w : world) :
  dom (_opts (self w)) = option_names →
  shown_inv w → shown_inv (dispatch e w).
Proof.
  intros Hdom Hsh. unfold shown_inv in *.
  destruct e as [| | |g|id g|opts]; simpl.
  - unfold enter. destruct (schedule_frame w) as (Hws & _ & Hs).
    apply (f_equal _tipwindow) in Hs. simpl in Hs. by rewrite Hs, Hws.
  - rewrite leave_eq. simpl.
    destruct (_tipwindow (self w)) as [n|]; [|done].
    destruct Hsh as (tl & -> & _). apply delete_singleton_eq.
  - rewrite leave_eq. simpl.
    destruct (_tipwindow (self w)) as [n|]; [|done].
    destruct Hsh as (tl & -> & _). apply delete_singleton_eq.
  - destruct (_id4 (self w)); [|done].
    destruct (_tipwindow (self w)) as [n|] eqn:Htw.
    + destruct (truthy (PInt (_follow_mouse (self w)))) eqn:Hfm.
      * destruct (motion_moves g w n Htw Hfm) as (x & y & _ & ->). simpl.
        rewrite Htw. destruct Hsh as (tl & -> & Hwd & Hov & Hlb & _).
        exists (moved (format_d x, y) tl).
        rewrite alter_singleton_eq. by repeat split.
      * rewrite motion_skip by auto. simpl. by rewrite Htw.
    + rewrite motion_skip by auto. simpl. by rewrite Htw.
  - destruct (timers (tk w) !! id); [|done].
    assert (shown_inv (expire id w)) as Hsh' by exact Hsh.
    assert (dom (_opts (self (expire id w))) = option_names) as Hdom'
      by exact Hdom.
    revert Hsh' Hdom'. generalize (expire id w). clear. intros w Hsh Hdom.
    unfold shown_inv in *.
    destruct (is_disabled w) eqn:Hd.
    + rewrite show_disabled by done. rewrite unschedule_eq. simpl.
      by destruct (_id (self w)).
    + destruct (_tipwindow (self w)) as [n|] eqn:Htw.
      * rewrite (show_visible g w n) by done. by rewrite Htw.
      * destruct (show_creates g w Hdom Hd Htw) as (x & y & _ & ->). simpl.
        rewrite Hsh, insert_empty. eexists. by repeat split.
  - rewrite lift_configure. simpl.
    by destruct (configure_frame opts (self w)) as (-> & _).
Qed.

Lemma shown_inv_run (es : list event) (w : world) :
  dom (_opts (self w)) = option_names →
  shown_inv w → shown_inv (run es w).
Proof.
  revert w. induction es as [|e es IH]; intros w Hdom Hsh; simpl; [done|].
  apply IH; [by rewrite dispatch_dom | by apply shown_inv_dispatch].
Qed.

(** X10.  On a tooltip the constructor has built, after any events:
    [_tipwindow] is [None] exactly when no popup window exists, and
    otherwise the window it names is the only one and is on screen
    (deiconified), without decorations, filled with its label and
    placed. *)
Theorem popup_handle_iff_shown (text delay : pyval) (opts : kwargs)
    (t : ToolTip) (es : list event) :
  ToolTip_init text delay opts = Ret t →
  let w := run es (start t) in
  match _tipwindow (self w) with
  | None => windows (tk w) = ∅
  | Some n =>
      ∃ tl, windows (tk w) = {[ n := tl ]} ∧
            withdrawn tl = false ∧ overrideredirect tl = true ∧
            is_Some (label tl) ∧ is_Some (position tl)
  end.
Proof.
  intros Hnew w. destruct (init_keys _ _ _ _ Hnew) as (Hdom & Htw & _).
  apply (shown_inv_run es (start t)); [done|].
  unfold shown_inv. simpl. by rewrite Htw.
Qed.

Lemma popup_handle_iff_shown_witness :
  ∃ tl, windows (tk shown_follow) = {[ 0%nat := tl ]} ∧
        withdrawn tl = false ∧ overrideredirect tl = true ∧
        is_Some (label tl) ∧ is_Some (position tl).
Proof.
  assert (ToolTip_init default_text default_delay [("follow_mouse", PInt 1)] =
          Ret demo_follow) as Hnew by (vm_compute; reflexivity).
  pose proof (popup_handle_iff_shown _ _ _ _
                [Enter; Timer 0 scenario_geometry] Hnew) as Hsh.
  cbv zeta in Hsh.
  assert (_tipwindow
            (self (run [Enter; Timer 0 scenario_geometry] (start demo_follow)))
          = Some 0%nat) as Htw by (vm_compute; reflexivity).
  rewrite Htw in Hsh. exact Hsh.
Defined.

(** X11.  On a tooltip the constructor has built, in a state without a
    popup and with the tooltip enabled, the pointer entering and the timer
    then expiring shows the popup: the one window is the next one the
    toolkit creates, undecorated, on screen, labelled with every option but
    [delay], [follow_mouse] and [state], and placed where [coords] says;
    no timer is pending, and [_id] still names the expired one. *)
Theorem hover_shows_popup (text delay : pyval) (opts : kwargs) (t : ToolTip)
    (es : list event) (g : geometry) (ms : pyval) :
  ToolTip_init text delay opts = Ret t →
  let w := run es (start t) in
  _tipwindow (self w) = None →
  due_delay w = Some ms →
  let w' := run [Enter; Timer (next_timer (tk w)) g] w in
  ∃ x y, snd (coords g w') = Ret (x, y) ∧
    _tipwindow (self w') = Some (next_window (tk w)) ∧
    windows (tk w') =
      {[ next_window (tk w) :=
           mkToplevel false true (String.eqb (windowingsystem g) "aqua")
             (Some (label_opts (_opts (self w))))
             (Some (format_d x, y)) ]} ∧
    timers (tk w') = ∅ ∧
    _id (self w') = Some (next_timer (tk w)).
Proof.
  intros Hnew w Htw Hdue w'.
  destruct (init_keys _ _ _ _ Hnew) as (Hdom0 & _ & _).
  assert (dom (_opts (self w)) = option_names) as Hdom
    by (unfold w; by rewrite run_dom).
  destruct (inv_reachable t es) as [Ht Hw]. fold w in Ht, Hw.
  pose proof (destroy_recorded_window w Hw) as Hws. rewrite Htw in Hws.
  destruct (schedule_timers w Ht) as (Hws1 & Hnw1 & Htw1 & Ho1 & Hs).
  rewrite Hdue in Hs. destruct Hs as (Hid1 & Hts1 & Hnt1).
  unfold w'. simpl. unfold enter.
  set (w1 := fst (_schedule w)) in *.
  rewrite Hts1, lookup_singleton_eq.
  set (w2 := expire (next_timer (tk w)) w1).
  assert (self w2 = self w1) as Hself2 by done.
  assert (windows (tk w2) = ∅ ∧ next_window (tk w2) = next_window (tk w) ∧
          timers (tk w2) = ∅) as (Hws2 & Hnw2 & Hts2).
  { unfold w2, expire, on_tk. simpl. rewrite Hts1, Hws1, Hnw1.
    by rewrite delete_singleton_eq. }
  assert (is_disabled w2 = false) as Hd2.
  { unfold is_disabled. rewrite Hself2, Ho1. unfold due_delay in Hdue.
    destruct (_opts (self w) !! "state") as [st|]; [|done].
    by destruct (eq_disabled st). }
  assert (dom (_opts (self w2)) = option_names) as Hdom2
    by (by rewrite Hself2, Ho1).
  assert (_tipwindow (self w2) = None) as Htw2 by (by rewrite Hself2, Htw1).
  clearbody w2. clearbody w1.
  destruct (show_creates g w2 Hdom2 Hd2 Htw2) as (x & y & Hxy & ->).
  exists x, y. split.
  - rewrite <- Hxy. by apply coords_depends.
  - simpl. rewrite Hnw2, Hws2, Hts2, insert_empty, Hself2, Ho1, Hid1. done.
Qed.

Lemma hover_shows_popup_witness :
  let w := start demo_follow in
  let w' := run [Enter; Timer 0 scenario_geometry] w in
  ∃ x y, snd (coords scenario_geometry w') = Ret (x, y) ∧
    _tipwindow (self w') = Some 0%nat ∧
    timers (tk w') = ∅ ∧ _id (self w') = Some 0%nat.
Proof.
  intros w w'.
  destruct (hover_shows_popup default_text default_delay
              [("follow_mouse", PInt 1)] demo_follow [] scenario_geometry
              (PInt 1500)) as (x & y & Hxy & Htw & _ & Hts & Hid).
  - vm_compute. reflexivity.
  - vm_compute. reflexivity.
  - vm_compute. reflexivity.
  - exists x, y. split; [exact Hxy|]. split; [exact Htw|].
    split; [exact Hts | exact Hid].
Defined.

Lemma idle_dispatch (e : event) (w : world) :
  is_enter e = false →
  windows (tk w) = ∅ → timers (tk w) = ∅ → _tipwindow (self w) = None →
  windows (tk (dispatch e w)) = ∅ ∧ timers (tk (dispatch e w)) = ∅ ∧
  _tipwindow (self (dispatch e w)) = None ∧
  next_window (tk (dispatch e w)) = next_window (tk w).
Proof.
  intros He Hws Hts Htw. destruct e as [| | |g|id g|opts]; try done; simpl.
  - rewrite leave_eq. simpl. rewrite Htw, Hts.
    destruct (_id (self w)); by rewrite ?delete_empty.
  - rewrite leave_eq. simpl. rewrite Htw, Hts.
    destruct (_id (self w)); by rewrite ?delete_empty.
  - destruct (_id4 (self w)); [|done]. by rewrite motion_skip by auto.
  - by rewrite Hts, lookup_empty.
  - rewrite lift_configure. simpl.
    by destruct (configure_frame opts (self w)) as (-> & _).
Qed.

(** X12.  Once the pointer has left (or a button was pressed), nothing but
    a new [Enter] brings a popup: over any later events without an [Enter]
    (expiring timers, motion, further leaves, [configure] calls) no window
    is created, no timer is pending and [_tipwindow] stays empty.  In
    particular a timer started by an [Enter] and cancelled by the [Leave]
    never shows anything. *)
Theorem no_popup_without_enter (t : ToolTip) (es0 es : list event) :
  Forall (λ e, is_enter e = false) es →
  let w := run es0 (start t) in
  let w' := run es (dispatch Leave w) in
  windows (tk w') = ∅ ∧ timers (tk w') = ∅ ∧
  _tipwindow (self w') = None ∧
  next_window (tk w') = next_window (tk w).
Proof.
  intros Hes w.
  destruct (inv_reachable t es0) as [Ht Hw]. fold w in Ht, Hw.
  assert (windows (tk (dispatch Leave w)) = ∅ ∧
          timers (tk (dispatch Leave w)) = ∅ ∧
          _tipwindow (self (dispatch Leave w)) = None ∧
          next_window (tk (dispatch Leave w)) = next_window (tk w)) as Hidle.
  { simpl. rewrite leave_eq. simpl.
    by rewrite cancel_recorded_timer, destroy_recorded_window. }
  revert Hidle. generalize (dispatch Leave w). clear Ht Hw.
  induction Hes as [|e es He Hes IH]; intros w1 Hidle; [done|].
  simpl. apply IH. destruct Hidle as (Hws & Hts & Htw & Hnw).
  destruct (idle_dispatch e w1 He Hws Hts Htw) as (? & ? & ? & Hnw').
  repeat split; try done. by rewrite Hnw'.
Qed.

Lemma no_popup_without_enter_witness :
  let w := run [Enter] (start (tooltip_of [])) in
  let w' := run [Timer 0 scenario_geometry; Motion scenario_geometry]
              (dispatch Leave w) in
  windows (tk w') = ∅ ∧ timers (tk w') = ∅ ∧
  _tipwindow (self w') = None ∧
  next_window (tk w') = next_window (tk w).
Proof.
  apply (no_popup_without_enter (tooltip_of []) [Enter]
           [Timer 0 scenario_geometry; Motion scenario_geometry]).
  repeat constructor.
Defined.

(** X13.  [Leave] twice is [Leave] once, in any state. *)
Theorem leave_idempotent (w : world) :
  dispatch Leave (dispatch Leave w) = dispatch Leave w.
Proof. simpl. by rewrite !leave_eq. Qed.

(** ** More on placement *)

(** X14.  Outside follow-mouse mode the popup never shares a row with the
    master: it lies wholly below the master's bottom edge or wholly above
    its top edge, whatever the sizes and the screen. *)
Theorem coords_clear_of_master (w : world) (g : geometry) (tw : nat) :
  _tipwindow (self w) = Some tw →
  truthy (PInt (_follow_mouse (self w))) = false →
  ∃ x y, coords g w = (w, Ret (x, y)) ∧
    (winfo_rooty g + winfo_height g < y ∨
     y + winfo_reqheight g < winfo_rooty g).
Proof.
  intros Htw Hfm. unfold coords. unfold_m. rewrite Htw. simpl. rewrite Hfm.
  eexists _, _. split; [reflexivity|].
  destruct (Z.gtb_spec (winfo_rooty g + winfo_height g + 3 + winfo_reqheight g)
              (winfo_screenheight g)); lia.
Qed.

Lemma coords_clear_of_master_witness :
  ∃ x y, coords scenario_geometry shown_anchored =
         (shown_anchored, Ret (x, y)) ∧
    (winfo_rooty scenario_geometry + winfo_height scenario_geometry < y ∨
     y + winfo_reqheight scenario_geometry < winfo_rooty scenario_geometry).
Proof.
  apply (coords_clear_of_master shown_anchored scenario_geometry 0%nat).
  - vm_compute. reflexivity.
  - vm_compute. reflexivity.
Defined.

(** X15.  In follow-mouse mode the pointer is never on a row of the popup:
    the popup starts below the pointer or ends above it, so the pointer
    cannot enter the popup by moving sideways. *)
Theorem coords_clear_of_pointer (w : world) (g : geometry) (tw : nat) :
  _tipwindow (self w) = Some tw →
  truthy (PInt (_follow_mouse (self w))) = true →
  ∃ x y, coords g w = (w, Ret (x, y)) ∧
    (winfo_pointery g < y ∨ y + winfo_reqheight g < winfo_pointery g).
Proof.
  intros Htw Hfm. unfold coords. unfold_m. rewrite Htw. simpl. rewrite Hfm.
  eexists _, _. split; [reflexivity|].
  destruct (Z.gtb_spec (winfo_pointery g + 20 + winfo_reqheight g)
              (winfo_screenheight g)); lia.
Qed.

Lemma coords_clear_of_pointer_witness :
  ∃ x y, coords scenario_geometry shown_follow =
         (shown_follow, Ret (x, y)) ∧
    (winfo_pointery scenario_geometry < y ∨
     y + winfo_reqheight scenario_geometry < winfo_pointery scenario_geometry).
Proof.
  apply (coords_clear_of_pointer shown_follow scenario_geometry 0%nat).
  - vm_compute. reflexivity.
  - vm_compute. reflexivity.
Defined.

(** X16.  When the pointer and the top of the master are not below the
    bottom of the screen, the popup's bottom edge is never below it, in
    either mode.  (Its top edge may be above the screen: the flipped row is
    not checked.) *)
Theorem coords_bottom_on_screen (w : world) (g : geometry) (tw : nat) :
  _tipwindow (self w) = Some tw →
  winfo_pointery g <= winfo_screenheight g →
  winfo_rooty g <= winfo_screenheight g →
  ∃ x y, coords g w = (w, Ret (x, y)) ∧
    y + winfo_reqheight g <= winfo_screenheight g.
Proof.
  intros Htw Hp Hr. unfold coords. unfold_m. rewrite Htw. simpl.
  eexists _, _. split; [reflexivity|].
  destruct (negb (_follow_mouse (self w) =? 0)).
  - destruct (Z.gtb_spec (winfo_pointery g + 20 + winfo_reqheight g)
                (winfo_screenheight g)); lia.
  - destruct (Z.gtb_spec
                (winfo_rooty g + winfo_height g + 3 + winfo_reqheight g)
                (winfo_screenheight g)); lia.
Qed.

Lemma coords_bottom_on_screen_witness :
  ∃ x y, coords top_geometry shown_follow = (shown_follow, Ret (x, y)) ∧
    y + winfo_reqheight top_geometry <= winfo_screenheight top_geometry ∧
    y < 0.
Proof.
  destruct (coords_bottom_on_screen shown_follow top_geometry 0%nat)
    as (x & y & Hxy & Hy).
  - vm_compute. reflexivity.
  - vm_compute. discriminate.
  - vm_compute. discriminate.
  - exists x, y. split; [exact Hxy|]. split; [exact Hy|].
    assert (snd (coords top_geometry shown_follow) = Ret (x, y)) as Hs
      by (by rewrite Hxy).
    vm_compute in Hs. injection Hs as _ <-. reflexivity.
Defined.

Lemma format_d_integer (z : Z) : format_d (inject_Z z) = z.
Proof. unfold format_d. simpl. apply Z.quot_1_r. Qed.

Lemma format_d_centred (px twx : Z) :
  format_d (inject_Z px - inject_Z twx / 2) = (2 * px - twx) ÷ 2.
Proof. unfold format_d. simpl. f_equal. lia. Qed.

Lemma Qltb_centred (px twx : Z) :
  Qltb (inject_Z px - inject_Z twx / 2) 0 = (2 * px <? twx).
Proof.
  destruct (Z.ltb_spec (2 * px) twx) as [Hlt|Hge].
  - by apply Qltb_lt, centred_negative.
  - destruct (Qltb _ 0) eqn:Hq; [|done].
    apply Qltb_lt, centred_negative in Hq. lia.
Qed.

Lemma Qltb_right_edge (px twx w : Z) :
  Qltb (inject_Z w) (inject_Z px - inject_Z twx / 2 + inject_Z twx) =
  (2 * w <? 2 * px + twx).
Proof.
  assert ((inject_Z w < inject_Z px - inject_Z twx / 2 + inject_Z twx)%Q ↔
          2 * w < 2 * px + twx) as Hiff.
  { rewrite (Zlt_Qlt (2 * w) (2 * px + twx)), inject_Z_plus, !inject_Z_mult.
    change (inject_Z 2) with 2%Q. unfold Qdiv. change (/ 2)%Q with (1 # 2)%Q.
    split; intros H; lra. }
  destruct (Z.ltb_spec (2 * w) (2 * px + twx)) as [Hlt|Hge].
  - by apply Qltb_lt, Hiff.
  - destruct (Qltb _ _) eqn:Hq; [|done].
    apply Qltb_lt, Hiff in Hq. lia.
Qed.

(** X17.  The pixel column a popup is moved to, that is the column [coords]
    returns formatted with [%d], in integers: 0 when twice the pointer
    column is below the popup width; else [screenWidth - popupWidth] when
    the centred popup would pass the right edge; else the centred column
    [(2 * pointerx - popupWidth) / 2] rounded towards zero. *)
Theorem popup_column (w : world) (g : geometry) (tw : nat) :
  _tipwindow (self w) = Some tw →
  ∃ x y, coords g w = (w, Ret (x, y)) ∧
    format_d x =
      if 2 * winfo_pointerx g <? winfo_reqwidth g then 0
      else if 2 * winfo_screenwidth g
                <? 2 * winfo_pointerx g + winfo_reqwidth g
           then winfo_screenwidth g - winfo_reqwidth g
           else (2 * winfo_pointerx g - winfo_reqwidth g) ÷ 2.
Proof.
  intros Htw. unfold coords. unfold_m. rewrite Htw. simpl.
  eexists _, _. split; [reflexivity|].
  rewrite Qltb_centred, Qltb_right_edge.
  destruct (2 * winfo_pointerx g <? winfo_reqwidth g); [done|].
  destruct (2 * winfo_screenwidth g <? 2 * winfo_pointerx g + winfo_reqwidth g).
  - apply format_d_integer.
  - apply format_d_centred.
Qed.

Lemma popup_column_witness :
  ∃ x y, coords (mkGeometry 101 30 1000 800 500 400 100 20 "x11")
           shown_anchored = (shown_anchored, Ret (x, y)) ∧
         format_d x = 449.
Proof.
  destruct (popup_column shown_anchored
              (mkGeometry 101 30 1000 800 500 400 100 20 "x11") 0%nat)
    as (x & y & Hxy & Hcol).
  - vm_compute. reflexivity.
  - exists x, y. split; [exact Hxy|]. rewrite Hcol. vm_compute. reflexivity.
Defined.

(** ** [configure] and the toolkit *)

(** X18.  [configure] calls, whatever their keywords and whether they fail
    or not, leave the toolkit alone: no timer is started or cancelled, no
    window is created, destroyed, moved or relabelled (a popup on screen
    keeps the label it was created with), and [_tipwindow] and [_id] are
    unchanged. *)
Theorem configure_leaves_toolkit (calls : list kwargs) (w : world) :
  tk (run (map Configure calls) w) = tk w ∧
  _tipwindow (self (run (map Configure calls) w)) = _tipwindow (self w) ∧
  _id (self (run (map Configure calls) w)) = _id (self w).
Proof.
  revert w. induction calls as [|c calls IH]; intros w; simpl; [done|].
  destruct (IH (fst (lift (configure c) w))) as (-> & -> & ->).
  rewrite lift_configure. simpl.
  by destruct (configure_frame c (self w)) as (-> & -> & _).
Qed.
